(** * iiifmagestar: request-descriptor parsers and the render pipeline

    A shallow embedding of [iiifmagestar/imageserver.py] (class
    [IIIFImageServer]) and of the [get_image] handler of
    [iiifmagestar/main.py], together with the properties of the region, size
    and rotation grammar.

    Modelling conventions.
    - Python [int] is [Z]; Python [float] is IEEE binary64, modelled with the
      [spec_float] operations of the standard library at precision 53 and
      maximal exponent 1024.
    - Python [str] is [string]; every character stands for the code point of
      the same number (0..255).
    - A Python call that can raise returns a [result]; the exception classes
      that the modelled code can meet are the constructors of [exn].
    - The digit-count limit of [int()] is not part of the model: the
      properties take the reading of a field by [int()] as a hypothesis.
    - [parse_size] is the recursion of the source without a limit on its
      depth; [parse_size_within] is the same recursion within the room that
      the interpreter's recursion limit leaves, and the properties about
      leading carets are stated of it.
    - The raster operations [cv2.flip] and [cv2.rotate] are modelled on
      rasters with positive extents; the properties about the mirrored or
      turned raster assume them.
    - A probe of the file system ([Path.exists]) answers or raises. An
      exception raised before the [try] block of a handler leaves the
      handler: [Unhandled]. *)

From Stdlib Require Import ZArith String Ascii List Bool Lia QArith Qround.
From Stdlib Require Import Sorted DecimalString.
From Stdlib Require Import SpecFloat.
From Equations Require Import Equations.
Import ListNotations.

#[local] Open Scope string_scope.
#[local] Open Scope Z_scope.

(** ** Exceptions and fallible computations *)

Inductive exn : Type :=
| ValueError
| OverflowError
| ZeroDivisionError
| cv2_error
| OSError
| RecursionError.

Inductive result (A : Type) : Type :=
| Ok (a : A)
| Raise (e : exn).

Arguments Ok {A} a.
Arguments Raise {A} e.

Definition bind {A B : Type} (r : result A) (k : A -> result B) : result B :=
  match r with
  | Ok a => k a
  | Raise e => Raise e
  end.

Notation "x <- r ;; k" := (bind r (fun x => k))
  (at level 61, r at next level, right associativity).
Notation "' p <- r ;; k" := (bind r (fun x => let p := x in k))
  (at level 61, p pattern, r at next level, right associativity).

(** ** Python strings *)

Definition code (c : ascii) : Z := Z.of_N (N_of_ascii c).

(** [s.startswith(p)] *)
Fixpoint startswith (p s : string) : bool :=
  match p, s with
  | EmptyString, _ => true
  | String _ _, EmptyString => false
  | String a p', String b s' => Ascii.eqb a b && startswith p' s'
  end.

(** [s[n:]] for [n >= 0] *)
Fixpoint slice_from (n : nat) (s : string) : string :=
  match n, s with
  | O, _ => s
  | S _, EmptyString => EmptyString
  | S k, String _ r => slice_from k r
  end.

(** [s.endswith(suf)] *)
Definition endswith (suf s : string) : bool :=
  (String.length suf <=? String.length s)%nat
  && (slice_from (String.length s - String.length suf) s =? suf)%string.

(** [sub in s] *)
Fixpoint contains (sub s : string) : bool :=
  startswith sub s
  || match s with
     | EmptyString => false
     | String _ r => contains sub r
     end.

(** [s.split(sep)] for a separator of one character *)
Fixpoint split (sep : ascii) (s : string) : list string :=
  match s with
  | EmptyString => [EmptyString]
  | String c r =>
      if Ascii.eqb c sep then EmptyString :: split sep r
      else match split sep r with
           | h :: t => String c h :: t
           | [] => [String c EmptyString]
           end
  end.

(** Truth value of a string: non-empty. *)
Definition truthy (s : string) : bool :=
  match s with
  | EmptyString => false
  | String _ _ => true
  end.

Definition is_ascii_digit (c : ascii) : bool :=
  (48 <=? code c) && (code c <=? 57).

(** [c.isdigit()]: the decimal digits, and among the code points 128..255
    the superscripts two, three and one. *)
Definition char_isdigit (c : ascii) : bool :=
  is_ascii_digit c || (code c =? 178) || (code c =? 179) || (code c =? 185).

Fixpoint all_chars (p : ascii -> bool) (s : string) : bool :=
  match s with
  | EmptyString => true
  | String c r => p c && all_chars p r
  end.

(** [s.isdigit()] *)
Definition isdigit (s : string) : bool := truthy s && all_chars char_isdigit s.

(** White space as [int()] and [float()] skip it: the six ASCII blanks, and
    the two blanks among the code points 128..255 (next line, no-break
    space). The separators 28..31 are blanks for [str.isspace] only. *)
Definition is_space (c : ascii) : bool :=
  ((9 <=? code c) && (code c <=? 13)) || (code c =? 32)
  || (code c =? 133) || (code c =? 160).

Fixpoint lstrip (s : string) : string :=
  match s with
  | EmptyString => EmptyString
  | String c r => if is_space c then lstrip r else s
  end.

Fixpoint rstrip (s : string) : string :=
  match s with
  | EmptyString => EmptyString
  | String c r =>
      let r' := rstrip r in
      if is_space c && negb (truthy r') then EmptyString else String c r'
  end.

Definition strip (s : string) : string := rstrip (lstrip s).

Definition lower_char (c : ascii) : ascii :=
  if (65 <=? code c) && (code c <=? 90)
  then ascii_of_N (N_of_ascii c + 32) else c.

Fixpoint lower (s : string) : string :=
  match s with
  | EmptyString => EmptyString
  | String c r => String (lower_char c) (lower r)
  end.

(** ** [int(str)] *)

Definition digit_val (c : ascii) : Z := code c - 48.

(** Digits with single underscores between them; [prev] tells whether the
    previous character was a digit. *)
Fixpoint int_digits (s : string) (acc : Z) (prev : bool) : option Z :=
  match s with
  | EmptyString => if prev then Some acc else None
  | String c r =>
      if Ascii.eqb c "_" then
        if prev then int_digits r acc false else None
      else if is_ascii_digit c then int_digits r (10 * acc + digit_val c) true
      else None
  end.

Definition split_sign (s : string) : bool * string :=
  match s with
  | String "-" r => (true, r)
  | String "+" r => (false, r)
  | _ => (false, s)
  end.

Definition py_int (s : string) : result Z :=
  let '(neg, body) := split_sign (strip s) in
  match int_digits body 0 false with
  | Some n => Ok (if neg then - n else n)
  | None => Raise ValueError
  end.

(** ** Binary64 arithmetic *)

Definition float : Type := spec_float.

Definition prec : Z := 53.
Definition emax : Z := 1024.

Definition round_ratio (s : bool) (n d : Z) : float :=
  let '(q, e, l) := SFdiv_core_binary prec emax n 0 d 0 in
  binary_round_aux prec emax s q e l.

(** Conversion of an [int] operand to [float]: nearest, ties to even;
    [OverflowError] beyond the largest finite value. *)
Definition float_of_int (z : Z) : result float :=
  match binary_normalize prec emax z 0 false with
  | S754_infinity _ => Raise OverflowError
  | f => Ok f
  end.

(** [a / b] on two [int]: the correctly rounded quotient. *)
Definition int_truediv (a b : Z) : result float :=
  if b =? 0 then Raise ZeroDivisionError
  else if a =? 0 then Ok (S754_zero (b <? 0))
  else match round_ratio (xorb (a <? 0) (b <? 0)) (Z.abs a) (Z.abs b) with
       | S754_infinity _ => Raise OverflowError
       | f => Ok f
       end.

Definition is_zero (f : float) : bool :=
  match f with
  | S754_zero _ => true
  | _ => false
  end.

(** [x / y] on two [float] *)
Definition float_truediv (x y : float) : result float :=
  if is_zero y then Raise ZeroDivisionError else Ok (SFdiv prec emax x y).

Definition float_mul (x y : float) : float := SFmul prec emax x y.

(** [int(x)] for a [float]: truncation toward zero. *)
Definition int_of_float (f : float) : result Z :=
  match f with
  | S754_nan => Raise ValueError
  | S754_infinity _ => Raise OverflowError
  | S754_zero _ => Ok 0
  | S754_finite s m e =>
      Ok (cond_Zopp s (match e with
                       | Z0 => Zpos m
                       | Zpos p => Zpos m * 2 ^ Zpos p
                       | Zneg p => Zpos m / 2 ^ Zpos p
                       end))
  end.

(** [n * x] and [x / n] with an [int] operand [n] *)
Definition int_mul_float (n : Z) (x : float) : result float :=
  fn <- float_of_int n ;; Ok (float_mul fn x).

Definition float_div_int (x : float) (n : Z) : result float :=
  fn <- float_of_int n ;; float_truediv x fn.

(** [min(a, b)] on floats keeps [a] unless [b < a]. *)
Definition float_min (a b : float) : float :=
  if SFltb b a then b else a.

(** C [fmod] on a finite [x] and a finite non-zero [y]: exact, with the sign
    of [x]. *)
Definition fmod (x y : float) : float :=
  match x, y with
  | S754_nan, _ | _, S754_nan => S754_nan
  | S754_infinity _, _ => S754_nan
  | _, S754_zero _ => S754_nan
  | _, S754_infinity _ => x
  | S754_zero _, _ => x
  | S754_finite sx mx ex, S754_finite _ my ey =>
      let e := Z.min ex ey in
      let X := Zpos mx * 2 ^ (ex - e) in
      let Y := Zpos my * 2 ^ (ey - e) in
      binary_normalize prec emax (cond_Zopp sx (X mod Y)) e sx
  end.

Definition float_sign (f : float) : bool :=
  match f with
  | S754_zero s | S754_infinity s | S754_finite s _ _ => s
  | S754_nan => false
  end.

Definition float_lt0 (f : float) : bool := SFltb f (S754_zero false).

(** [x % y] on two [float] *)
Definition float_mod (x y : float) : result float :=
  if is_zero y then Raise ZeroDivisionError
  else
    let m := fmod x y in
    if is_zero m then Ok (S754_zero (float_sign y))
    else if negb (Bool.eqb (float_lt0 y) (float_lt0 m))
         then Ok (SFadd prec emax m y)
         else Ok m.

(** [x % n] with an [int] operand [n] *)
Definition float_mod_int (x : float) (n : Z) : result float :=
  fn <- float_of_int n ;; float_mod x fn.

(** Comparison of a [float] with a small [int] literal. *)
Definition float_eq_int (x : float) (n : Z) : bool :=
  SFeqb x (binary_normalize prec emax n 0 false).

(** ** [float(str)] *)

(** Removal of the underscores, which may only stand between two digits;
    [prev] is the previous character. *)
Fixpoint drop_underscores (prev : ascii) (s : string) : option string :=
  match s with
  | EmptyString => if Ascii.eqb prev "_" then None else Some EmptyString
  | String c r =>
      if Ascii.eqb c "_" then
        if is_ascii_digit prev then drop_underscores c r else None
      else if Ascii.eqb prev "_" && negb (is_ascii_digit c) then None
      else option_map (String c) (drop_underscores c r)
  end.

(** Leading decimal digits: their value on top of [acc], their number on top
    of [n], and the rest of the string. *)
Fixpoint take_digits (s : string) (acc : Z) (n : Z) : Z * Z * string :=
  match s with
  | EmptyString => (acc, n, s)
  | String c r =>
      if is_ascii_digit c then take_digits r (10 * acc + digit_val c) (n + 1)
      else (acc, n, s)
  end.

(** A decimal literal [digits [. digits] [e [sign] digits]] with at least one
    digit before the exponent: its digits as an integer [d] and the power of
    ten [x] such that the value is [d * 10 ^ x]. *)
Definition parse_decimal (s : string) : option (Z * Z) :=
  let '(d1, n1, r1) := take_digits s 0 0 in
  let '(d, n2, r2) :=
    match r1 with
    | String "." r => take_digits r d1 0
    | _ => (d1, 0, r1)
    end in
  if (n1 + n2 =? 0) then None
  else
    match r2 with
    | EmptyString => Some (d, - n2)
    | String c r =>
        if Ascii.eqb c "e" || Ascii.eqb c "E" then
          let '(sx, rx) := split_sign r in
          match take_digits rx 0 0 with
          | (x, nx, EmptyString) =>
              if nx =? 0 then None
              else Some (d, (if sx then - x else x) - n2)
          | _ => None
          end
        else None
    end.

Definition float_of_decimal (neg : bool) (d x : Z) : float :=
  if d =? 0 then S754_zero neg
  else if 0 <=? x then round_ratio neg (d * 10 ^ x) 1
  else round_ratio neg d (10 ^ (- x)).

Definition py_float (s : string) : result float :=
  match drop_underscores "000" (strip s) with
  | None => Raise ValueError
  | Some t =>
      let '(neg, body) := split_sign t in
      match parse_decimal body with
      | Some (d, x) => Ok (float_of_decimal neg d x)
      | None =>
          let w := lower body in
          if (w =? "inf")%string || (w =? "infinity")%string
          then Ok (S754_infinity neg)
          else if (w =? "nan")%string then Ok S754_nan
          else Raise ValueError
      end
  end.

(** ** Rasters

    A decoded image is a [numpy] array of shape [(height, width, ...)]; only
    the first two axes matter to the pipeline, so a raster is its two extents
    and the pixel (a list of channel values) at each row and column. *)

Definition pixel : Type := list Z.

Record ndarray : Type := {
  shape_h : Z;
  shape_w : Z;
  at_ : Z -> Z -> pixel
}.

(** [image.shape[:2]] *)
Definition shape2 (image : ndarray) : Z * Z := (shape_h image, shape_w image).

(** A slice bound brought into [0..len], as basic slicing does. *)
Definition adjust_index (i len : Z) : Z :=
  if i <? 0 then Z.max 0 (i + len) else Z.min i len.

(** [image[y0:y1, x0:x1]] *)
Definition crop (image : ndarray) (y0 y1 x0 x1 : Z) : ndarray :=
  let ys := adjust_index y0 (shape_h image) in
  let ye := adjust_index y1 (shape_h image) in
  let xs := adjust_index x0 (shape_w image) in
  let xe := adjust_index x1 (shape_w image) in
  {| shape_h := Z.max 0 (ye - ys);
     shape_w := Z.max 0 (xe - xs);
     at_ := fun i j => at_ image (ys + i) (xs + j) |}.

(** [cv2.flip(image, 1)] on a raster with positive extents: mirror about
    the vertical axis. On a raster without rows or without columns the
    library gives no raster back; the properties below that speak of the
    mirrored raster assume positive extents. *)
Definition cv2_flip_horizontal (image : ndarray) : ndarray :=
  {| shape_h := shape_h image;
     shape_w := shape_w image;
     at_ := fun i j => at_ image i (shape_w image - 1 - j) |}.

Inductive rotate_code : Type :=
| ROTATE_90_CLOCKWISE
| ROTATE_180
| ROTATE_90_COUNTERCLOCKWISE.

(** [cv2.rotate(image, code)] on a raster with positive extents: a
    permutation of the pixels. As for [cv2.flip], a raster without rows or
    without columns is outside its domain. *)
Definition cv2_rotate (image : ndarray) (c : rotate_code) : ndarray :=
  match c with
  | ROTATE_90_CLOCKWISE =>
      {| shape_h := shape_w image;
         shape_w := shape_h image;
         at_ := fun i j => at_ image (shape_h image - 1 - j) i |}
  | ROTATE_180 =>
      {| shape_h := shape_h image;
         shape_w := shape_w image;
         at_ := fun i j => at_ image (shape_h image - 1 - i) (shape_w image - 1 - j) |}
  | ROTATE_90_COUNTERCLOCKWISE =>
      {| shape_h := shape_w image;
         shape_w := shape_h image;
         at_ := fun i j => at_ image j (shape_w image - 1 - i) |}
  end.

(** ** Collaborators

    The file system, the decoder, the resampling operations and the encoder
    are outside the modelled code. [image_dir] is the configured image
    directory. [rotate_arbitrary] stands for the arbitrary-angle branch of
    [apply_rotation] (rotation matrix, canvas growth and [cv2.warpAffine]);
    [encode_image] for the quality adjustment and the codec. *)

(** [PathJoin dir name] is the expression [dir / name] of [pathlib], kept as
    its two operands. Which file it names is the platform's matter (on
    Windows a name that carries a drive replaces [dir]).

    [path_exists] is [file_path.exists()]: it answers, or raises the
    [OSError] that [pathlib] does not swallow (a name that is too long, a
    directory that may not be searched). *)

Inductive Path : Type :=
| PathJoin (dir name : string).

Class Env : Type := {
  image_dir : string;
  path_exists : Path -> result bool;
  cv2_imread : Path -> option ndarray;
  cv2_resize : ndarray -> Z * Z -> result ndarray;
  rotate_arbitrary : ndarray -> float -> result ndarray;
  encode_image : ndarray -> string -> string -> result (list Z)
}.

(** ** [IIIFImageServer.parse_region] *)

Definition region4 : Type := Z * Z * Z * Z.

(** [dim * pct / 100], a [float] *)
Definition pct_of (dim : Z) (pct : float) : result float :=
  t <- int_mul_float dim pct ;;
  float_div_int t 100.

(** [int(dim * pct / 100)] *)
Definition scale_pct (dim : Z) (pct : float) : result Z :=
  q <- pct_of dim pct ;;
  int_of_float q.

(** The percentage form; [None] when the code falls through. *)
Definition parse_region_pct (region : string) (img_width img_height : Z)
  : result (option region4) :=
  if startswith "pct:" region then
    match split "," (slice_from 4 region) with
    | [sx; sy; sw; sh] =>
        x_pct <- py_float sx ;;
        y_pct <- py_float sy ;;
        w_pct <- py_float sw ;;
        h_pct <- py_float sh ;;
        x <- scale_pct img_width x_pct ;;
        y <- scale_pct img_height y_pct ;;
        w <- scale_pct img_width w_pct ;;
        h <- scale_pct img_height h_pct ;;
        Ok (Some (x, y, w, h))
    | _ => Ok None
    end
  else Ok None.

(** The absolute pixel form, and the default. *)
Definition parse_region_abs (region : string) (img_width img_height : Z)
  : result region4 :=
  match split "," region with
  | [sx; sy; sw; sh] =>
      x <- py_int sx ;;
      y <- py_int sy ;;
      w <- py_int sw ;;
      h <- py_int sh ;;
      let x := Z.max 0 (Z.min x img_width) in
      let y := Z.max 0 (Z.min y img_height) in
      let w := Z.min w (img_width - x) in
      let h := Z.min h (img_height - y) in
      Ok (x, y, w, h)
  | _ => Ok (0, 0, img_width, img_height)
  end.

Definition parse_region (region : string) (img_width img_height : Z)
  : result region4 :=
  if (region =? "full")%string then Ok (0, 0, img_width, img_height)
  else if (region =? "square")%string then
    if img_width =? img_height then Ok (0, 0, img_width, img_height)
    else if img_width >? img_height then
      let x := (img_width - img_height) / 2 in
      Ok (x, 0, img_height, img_height)
    else
      let y := (img_height - img_width) / 2 in
      Ok (0, y, img_width, img_width)
  else
    r <- parse_region_pct region img_width img_height ;;
    match r with
    | Some v => Ok v
    | None => parse_region_abs region img_width img_height
    end.

(** ** [IIIFImageServer.parse_size] *)

(** [int(a * b / c)] on three [int] *)
Definition int_muldiv (a b c : Z) : result Z :=
  q <- int_truediv (a * b) c ;;
  int_of_float q.

(** The [w,h] forms; [None] when the code falls through. *)
Definition parse_size_comma (size : string) (region_width region_height : Z)
  : result (option (Z * Z)) :=
  if contains "," size then
    match split "," size with
    | [w_str; h_str] =>
        if truthy w_str && negb (truthy h_str) then
          w <- py_int w_str ;;
          h <- int_muldiv region_height w region_width ;;
          Ok (Some (w, Z.max 1 h))
        else if truthy h_str && negb (truthy w_str) then
          h <- py_int h_str ;;
          w <- int_muldiv region_width h region_height ;;
          Ok (Some (Z.max 1 w, h))
        else if truthy w_str && truthy h_str then
          w <- py_int w_str ;;
          h <- py_int h_str ;;
          Ok (Some (w, h))
        else Ok None
    | _ => Raise ValueError
    end
  else Ok None.

(** The best-fit form [!w,h]; [None] when the code falls through. [size] is
    the token after its leading [!]. *)
Definition parse_size_bestfit (size : string) (region_width region_height : Z)
  : result (option (Z * Z)) :=
  if contains "," size then
    match split "," size with
    | [sw; sh] =>
        max_w <- py_int sw ;;
        max_h <- py_int sh ;;
        scale_w <- int_truediv max_w region_width ;;
        scale_h <- int_truediv max_h region_height ;;
        let scale := float_min scale_w scale_h in
        w <- (t <- int_mul_float region_width scale ;; int_of_float t) ;;
        h <- (t <- int_mul_float region_height scale ;; int_of_float t) ;;
        Ok (Some (Z.max 1 w, Z.max 1 h))
    | _ => Raise ValueError
    end
  else Ok None.

(** A bare number, and the default. *)
Definition parse_size_number (size : string) (region_width region_height : Z)
  : result (Z * Z) :=
  if isdigit size then
    w <- py_int size ;;
    h <- int_muldiv region_height w region_width ;;
    Ok (w, Z.max 1 h)
  else Ok (region_width, region_height).

(** The body of [parse_size] after the [max] and [^] tests. *)
Definition parse_size_forms (size : string) (region_width region_height : Z)
  : result (Z * Z) :=
  if startswith "pct:" size then
    pct <- py_float (slice_from 4 size) ;;
    w <- scale_pct region_width pct ;;
    h <- scale_pct region_height pct ;;
    Ok (Z.max 1 w, Z.max 1 h)
  else
    r <- parse_size_comma size region_width region_height ;;
    match r with
    | Some v => Ok v
    | None =>
        if startswith "!" size then
          let size := slice_from 1 size in
          r <- parse_size_bestfit size region_width region_height ;;
          match r with
          | Some v => Ok v
          | None => parse_size_number size region_width region_height
          end
        else parse_size_number size region_width region_height
    end.

(** One activation of [parse_size]: it returns, or calls itself. *)
Inductive activation : Type :=
| Return (r : result (Z * Z))
| Recurse (size : string).

Definition parse_size_step (size : string) (region_width region_height : Z)
  : activation :=
  if (size =? "max")%string then Return (Ok (region_width, region_height))
  else if startswith "^" size then Recurse (slice_from 1 size)
  else Return (parse_size_forms size region_width region_height).

(** A value together with the equation that names it. *)
Definition inspect {A : Type} (x : A) : {y : A | x = y} := exist _ x eq_refl.

(** [parse_size]: the recursion of the source on the token without its
    leading [^], with no limit on its depth (see [parse_size_within]). *)
Equations? parse_size (size : string) (region_width region_height : Z)
  : result (Z * Z) by wf (String.length size) lt :=
  parse_size size region_width region_height
    with inspect (parse_size_step size region_width region_height) := {
    | exist _ (Return r) _ => r
    | exist _ (Recurse rest) Hstep => parse_size rest region_width region_height }.
Proof.
  revert Hstep. unfold parse_size_step.
  destruct (size =? "max")%string; [discriminate|].
  destruct size as [|c size']; [cbn; discriminate|].
  destruct (startswith "^" (String c size')); [|discriminate].
  intros [= <-]. apply Nat.lt_succ_diag_r.
Qed.

(** ** The pipeline's computations: errors and a log of the stages applied *)

Inductive stage : Type :=
| Crop (y0 y1 x0 x1 : Z)          (* image[y0:y1, x0:x1] *)
| Resize (width height : Z)       (* cv2.resize(image, (width, height)) *)
| Rotate (rotation : string)      (* apply_rotation(image, rotation) *)
| Encode (format quality : string).

Definition M (A : Type) : Type := list stage -> result A * list stage.

Definition ret {A : Type} (a : A) : M A := fun log => (Ok a, log).

Definition lift {A : Type} (r : result A) : M A := fun log => (r, log).

Definition tell (s : stage) : M unit := fun log => (Ok tt, (log ++ [s])%list).

Definition mbind {A B : Type} (m : M A) (k : A -> M B) : M B :=
  fun log =>
    match m log with
    | (Ok a, log') => k a log'
    | (Raise e, log') => (Raise e, log')
    end.

Notation "x <~ m ;; k" := (mbind m (fun x => k))
  (at level 61, m at next level, right associativity).
Notation "' p <~ m ;; k" := (mbind m (fun x => let p := x in k))
  (at level 61, p pattern, m at next level, right associativity).

Record request : Type := {
  identifier : string;
  region : string;
  size : string;
  rotation : string;
  quality : string;
  format : string
}.

Inductive response : Type :=
| ImageResponse (body : list Z) (media_type : string)
| JSONResponse (kind message : string) (status_code : Z)
| ProcessingError (e : exn)       (* InternalServerError, status 500 *)
| Unhandled (e : exn).            (* raised before the [try]: it leaves the handler *)

Definition path_delimiters : list string := [".."; "/"; "\"].

Definition accepted_formats : list string :=
  [".jpg"; ".jpeg"; ".png"; ".tiff"; ".tif"; ".webp"; ".jp2"; ".pdf"].

Definition content_type_map : list (string * string) :=
  [("jpg", "image/jpeg"); ("jpeg", "image/jpeg"); ("png", "image/png");
   ("webp", "image/webp"); ("tif", "image/tiff"); ("tiff", "image/tiff")].

Fixpoint dict_get (m : list (string * string)) (k default : string) : string :=
  match m with
  | [] => default
  | (k', v) :: m' => if (k' =? k)%string then v else dict_get m' k default
  end.

Section Server.

Context {env : Env}.

(** *** [IIIFImageServer.find_image_file] *)

(** The loop over the formats: the first candidate that exists. *)
Fixpoint first_available (identifier : string) (exts : list string)
  : result (option Path) :=
  match exts with
  | [] => Ok None
  | ext :: exts' =>
      let file_path := PathJoin image_dir (identifier ++ ext) in
      found <- path_exists file_path ;;
      if found then Ok (Some file_path)
      else first_available identifier exts'
  end.

Definition find_image_file (identifier : string) : result (option Path) :=
  if existsb (fun delimiter => contains delimiter identifier) path_delimiters
  then Ok None
  else
    let file_path := PathJoin image_dir identifier in
    found <- (if existsb (fun ext => endswith ext identifier) accepted_formats
              then path_exists file_path else Ok false) ;;
    if found then Ok (Some file_path)
    else first_available identifier accepted_formats.

(** *** [IIIFImageServer.apply_rotation] *)

(** The body of the [try] block. *)
Definition rotate_by (image : ndarray) (rotation : string) : result ndarray :=
  angle <- py_float rotation ;;
  if negb (float_eq_int angle 0) then
    r <- float_mod_int angle 90 ;;
    if float_eq_int r 0 then
      angle <- float_mod_int angle 360 ;;
      if float_eq_int angle 90 then Ok (cv2_rotate image ROTATE_90_CLOCKWISE)
      else if float_eq_int angle 180 then Ok (cv2_rotate image ROTATE_180)
      else if float_eq_int angle 270
           then Ok (cv2_rotate image ROTATE_90_COUNTERCLOCKWISE)
           else Ok image
    else rotate_arbitrary image angle
  else Ok image.

Definition apply_rotation (image : ndarray) (rotation : string)
  : result ndarray :=
  if (rotation =? "0")%string then Ok image
  else
    let mirror := startswith "!" rotation in
    let rotation := if mirror then slice_from 1 rotation else rotation in
    let image := if mirror then cv2_flip_horizontal image else image in
    match rotate_by image rotation with
    | Raise ValueError => Ok image
    | r => r
    end.

(** *** [get_image] *)

(** The [try] block after the decoding, stage by stage. *)
Definition crop_stage (image : ndarray) (req : request) : M ndarray :=
  let '(original_height, original_width) := shape2 image in
  '(x, y, w, h) <~ lift (parse_region (region req) original_width original_height) ;;
  if (w >? 0) && (h >? 0)
  then _ <~ tell (Crop y (y + h) x (x + w)) ;;
       ret (crop image y (y + h) x (x + w))
  else ret image.

Definition scale_stage (image : ndarray) (req : request) : M ndarray :=
  let '(current_height, current_width) := shape2 image in
  '(new_width, new_height) <~ lift (parse_size (size req) current_width current_height) ;;
  if negb (new_width =? current_width) || negb (new_height =? current_height)
  then _ <~ tell (Resize new_width new_height) ;;
       lift (cv2_resize image (new_width, new_height))
  else ret image.

Definition rotate_stage (image : ndarray) (req : request) : M ndarray :=
  _ <~ tell (Rotate (rotation req)) ;;
  lift (apply_rotation image (rotation req)).

Definition encode_stage (image : ndarray) (req : request) : M (list Z) :=
  _ <~ tell (Encode (format req) (quality req)) ;;
  lift (encode_image image (format req) (quality req)).

Definition render (image : ndarray) (req : request) : M (list Z) :=
  image <~ crop_stage image req ;;
  image <~ scale_stage image req ;;
  image <~ rotate_stage image req ;;
  encode_stage image req.

Definition get_image (req : request) : response * list stage :=
  match find_image_file (identifier req) with
  | Raise e => (Unhandled e, [])
  | Ok None => (JSONResponse "BadRequest" "Image not found" 404, [])
  | Ok (Some image_path) =>
      match cv2_imread image_path with
      | None => (JSONResponse "BadRequest" "Invalid image file" 400, [])
      | Some image =>
          match render image req [] with
          | (Ok image_bytes, log) =>
              (ImageResponse image_bytes
                 (dict_get content_type_map (lower (format req)) "image/jpeg"),
               log)
          | (Raise e, log) => (ProcessingError e, log)
          end
      end
  end.

End Server.

(** ** Reading [parse_size] with a bounded call depth *)

Fixpoint parse_size_fuel (fuel : nat) (size : string)
  (region_width region_height : Z) : option (result (Z * Z)) :=
  match fuel with
  | O => None
  | S fuel' =>
      match parse_size_step size region_width region_height with
      | Return r => Some r
      | Recurse rest => parse_size_fuel fuel' rest region_width region_height
      end
  end.

(** [parse_size] when the interpreter has room for [room] nested calls of
    it: every leading [^] takes one call, and the call that does not fit
    raises [RecursionError], which nothing in [parse_size] catches. *)
Definition parse_size_within (room : nat) (size : string)
  (region_width region_height : Z) : result (Z * Z) :=
  match parse_size_fuel room size region_width region_height with
  | Some r => r
  | None => Raise RecursionError
  end.

(** The number of [^] at the start of a token. *)
Fixpoint leading_carets (s : string) : nat :=
  match s with
  | String "^" r => S (leading_carets r)
  | _ => O
  end.

(** ** The real value of a binary64 number *)

Definition float_value (f : float) : option Q :=
  match f with
  | S754_zero _ => Some 0%Q
  | S754_finite s m e =>
      Some (match e with
            | Zneg p => (cond_Zopp s (Zpos m) # 2 ^ p)%Q
            | _ => inject_Z (cond_Zopp s (Zpos m) * 2 ^ e)
            end)
  | _ => None
  end.

(** [f] is finite and its value is the rational [q]. *)
Definition float_is (f : float) (q : Q) : Prop :=
  exists q', float_value f = Some q' /\ (q' == q)%Q.

(** Rounding of a rational toward zero. *)
Definition Qtrunc (q : Q) : Z :=
  if Qle_bool 0 q then Qfloor q else Qceiling q.

(** The coordinate that the specification gives for a percentage [pct] of the
    extent [dim]: [floor(pct / 100 * dim)]. *)
Definition pct_floor (pct : Q) (dim : Z) : Z :=
  Qfloor (pct / 100 * inject_Z dim)%Q.

(** ** A small environment to run the pipeline on

    One file, [page1.jpg], decoding to 4 columns by 2 rows; a file system
    that refuses a name of more than 255 characters; a resize by
    nearest neighbour that refuses an empty target, as [cv2.resize] does; no
    arbitrary rotation; an encoder that writes the two extents. *)

Definition sample_image : ndarray :=
  {| shape_h := 2; shape_w := 4; at_ := fun i j => [i; j] |}.

Definition sample_resize (image : ndarray) (dsize : Z * Z) : result ndarray :=
  let '(w, h) := dsize in
  if (w <=? 0) || (h <=? 0) || (shape_w image <=? 0) || (shape_h image <=? 0)
  then Raise cv2_error
  else Ok {| shape_h := h; shape_w := w;
             at_ := fun i j => at_ image (i * shape_h image / h)
                                         (j * shape_w image / w) |}.

Definition sample_env : Env :=
  {| image_dir := "/testimages/";
     path_exists := fun p =>
       match p with
       | PathJoin d n =>
           if (255 <? Z.of_nat (String.length n)) then Raise OSError
           else Ok ((d =? "/testimages/")%string && (n =? "page1.jpg")%string)
       end;
     cv2_imread := fun p =>
       match p with
       | PathJoin d n =>
           if (d =? "/testimages/")%string && (n =? "page1.jpg")%string
           then Some sample_image else None
       end;
     cv2_resize := sample_resize;
     rotate_arbitrary := fun _ _ => Raise cv2_error;
     encode_image := fun image _ _ => Ok [shape_w image; shape_h image] |}.

(** An identifier of 300 characters. *)
Definition long_identifier : string :=
  String.concat "" (List.repeat "x" 300).

Definition sample_request (region size rotation : string) : request :=
  {| identifier := "page1"; region := region; size := size;
     rotation := rotation; quality := "default"; format := "jpg" |}.

(** A computation only adds to the log. *)
Definition appends {A : Type} (m : M A) : Prop :=
  forall log, exists l, snd (m log) = (log ++ l)%list.

(** ** [str.lower()] on the code points 0..255 *)

Definition str_lower_char (c : ascii) : ascii :=
  if ((65 <=? code c) && (code c <=? 90))
     || ((192 <=? code c) && (code c <=? 222) && negb (code c =? 215))
  then ascii_of_N (N_of_ascii c + 32) else c.

Fixpoint str_lower (s : string) : string :=
  match s with
  | EmptyString => EmptyString
  | String c r => String (str_lower_char c) (str_lower r)
  end.

(** ** [IIIFImageServer.encode_image]

    The codec operations of [cv2] and its three parameter keys are
    collaborators; [ndim] is [len(image.shape)]. [cv2_threshold] is the
    second component of [cv2.threshold(image, thresh, maxval,
    cv2.THRESH_BINARY)], [cv2_imencode] the pair [(success, buffer)]. *)

Class Codec : Type := {
  ndim : ndarray -> Z;
  IMWRITE_JPEG_QUALITY : Z;
  IMWRITE_PNG_COMPRESSION : Z;
  IMWRITE_WEBP_QUALITY : Z;
  cv2_cvtColor_BGR2GRAY : ndarray -> result ndarray;
  cv2_threshold : ndarray -> Z -> Z -> result ndarray;
  cv2_imencode : string -> ndarray -> list Z -> result (bool * list Z)
}.

Module IIIFImageServer.

Section Encoder.

Context {codec : Codec}.

(** The quality conversion. *)
Definition convert_quality (image : ndarray) (quality : string)
  : result ndarray :=
  if (quality =? "color")%string || (quality =? "default")%string then Ok image
  else if (quality =? "gray")%string then
    if ndim image =? 3 then cv2_cvtColor_BGR2GRAY image else Ok image
  else if (quality =? "bitonal")%string then
    image <- (if ndim image =? 3 then cv2_cvtColor_BGR2GRAY image
              else Ok image) ;;
    cv2_threshold image 128 255
  else Ok image.

(** The codec call chosen by the format. *)
Definition encode_as (image : ndarray) (format_lower : string)
  : result (bool * list Z) :=
  if (format_lower =? "jpg")%string || (format_lower =? "jpeg")%string then
    cv2_imencode ".jpg" image [IMWRITE_JPEG_QUALITY; 90]
  else if (format_lower =? "png")%string then
    cv2_imencode ".png" image [IMWRITE_PNG_COMPRESSION; 6]
  else if (format_lower =? "webp")%string then
    cv2_imencode ".webp" image [IMWRITE_WEBP_QUALITY; 90]
  else if (format_lower =? "tif")%string || (format_lower =? "tiff")%string then
    cv2_imencode ".tiff" image []
  else
    cv2_imencode ".jpg" image [IMWRITE_JPEG_QUALITY; 90].

Definition encode_image (image : ndarray) (format quality : string)
  : result (list Z) :=
  image <- convert_quality image quality ;;
  let format_lower := str_lower format in
  ' (success, buffer) <- encode_as image format_lower ;;
  if negb success then Raise ValueError else Ok buffer.

End Encoder.

End IIIFImageServer.

(** An environment whose encoder is [IIIFImageServer.encode_image] over the
    codec [codec]. *)
Definition with_codec (env : Env) (codec : Codec) : Env :=
  {| image_dir := @image_dir env;
     path_exists := @path_exists env;
     cv2_imread := @cv2_imread env;
     cv2_resize := @cv2_resize env;
     rotate_arbitrary := @rotate_arbitrary env;
     encode_image := IIIFImageServer.encode_image |}.

(** The container that a media type names. *)
Definition media_type_ext : list (string * string) :=
  [("image/jpeg", ".jpg"); ("image/png", ".png"); ("image/webp", ".webp");
   ("image/tiff", ".tiff")].

(** ** [get_info] *)

#[local] Unset Elimination Schemes.

Inductive json : Type :=
| JString (s : string)
| JNumber (z : Z)
| JArray (items : list json)
| JObject (fields : list (string * json)).

#[local] Set Elimination Schemes.

Fixpoint json_get (fields : list (string * json)) (k : string) : option json :=
  match fields with
  | [] => None
  | (k', v) :: fields' =>
      if (k' =? k)%string then Some v else json_get fields' k
  end.

Inductive info_response : Type :=
| InfoResponse (info : list (string * json))
| InfoError (kind message : string) (status_code : Z)
| InfoUnhandled (e : exn).        (* raised in the handler: it leaves it *)

Section Info.

Context {env : Env}.

(** [BASE_URL] is the configured public address. *)
Definition get_info (BASE_URL : string) (identifier : string) : info_response :=
  match find_image_file identifier with
  | Raise e => InfoUnhandled e
  | Ok None => InfoError "BadRequest" "Image not found" 404
  | Ok (Some image_path) =>
      match cv2_imread image_path with
      | None => InfoError "BadRequest" "Invalid image file" 400
      | Some image =>
          let '(height, width) := shape2 image in
          InfoResponse
            [("@context", JString "http://iiif.io/api/image/3/context.json");
             ("id", JString (BASE_URL ++ "/iiif/3/" ++ identifier));
             ("type", JString "ImageService3");
             ("protocol", JString "http://iiif.io/api/image");
             ("profile", JString "level2");
             ("width", JNumber width);
             ("height", JNumber height);
             ("maxArea", JNumber (width * height));
             ("maxHeight", JNumber height);
             ("maxWidth", JNumber width);
             ("preferredFormats",
              JArray [JString "jpg"; JString "png"; JString "webp"]);
             ("extraFormats", JArray [JString "tif"]);
             ("extraQualities",
              JArray [JString "color"; JString "gray"; JString "bitonal"]);
             ("extraFeatures",
              JArray [JString "arbitraryRotation"; JString "mirroring";
                      JString "regionSquare"; JString "sizeUpscaling";
                      JString "cors"]);
             ("rights", JString "http://creativecommons.org/licenses/by/4.0/");
             ("partOf",
              JArray [JObject [("id", JString (BASE_URL ++ "/collection"));
                               ("type", JString "Collection")]])]
      end
  end.

End Info.

(** ** The order of the stages *)

Definition stage_rank (s : stage) : nat :=
  match s with
  | Crop _ _ _ _ => 0
  | Resize _ _ => 1
  | Rotate _ => 2
  | Encode _ _ => 3
  end.

(** [n] leading carets *)
Fixpoint carets (n : nat) (s : string) : string :=
  match n with
  | O => s
  | S k => String "^" (carets k s)
  end.

(** A sample codec: every raster has three axes, conversions keep the
    raster, the encoder writes the length of the container name and the two
    extents, and fails on an empty raster. *)
Definition sample_codec : Codec :=
  {| ndim := fun _ => 3;
     IMWRITE_JPEG_QUALITY := 1;
     IMWRITE_PNG_COMPRESSION := 16;
     IMWRITE_WEBP_QUALITY := 64;
     cv2_cvtColor_BGR2GRAY := fun image => Ok image;
     cv2_threshold := fun image _ _ => Ok image;
     cv2_imencode := fun ext image _ =>
       Ok ((0 <? shape_w image) && (0 <? shape_h image),
           [Z.of_nat (String.length ext); shape_w image; shape_h image]) |}.

(** A character on which [int()] can start: a blank, a sign or a digit. *)
Definition int_start (c : ascii) : bool :=
  is_space c || Ascii.eqb c "+" || Ascii.eqb c "-" || is_ascii_digit c.

(** What a computation adds to the log satisfies [P]. *)
Definition adds {A : Type} (P : list stage -> Prop) (m : M A) : Prop :=
  forall log, exists l, snd (m log) = (log ++ l)%list /\ P l.

(** Stages of strictly increasing rank, all from [lo] up to [hi]
    excluded. *)
Definition in_ranks (lo hi : nat) (l : list stage) : Prop :=
  StronglySorted lt (map stage_rank l)
  /\ Forall (fun s => (lo <= stage_rank s < hi)%nat) l.

(** Two rasters with the same extents and the same pixels. *)
Definition same_raster (a b : ndarray) : Prop :=
  shape2 a = shape2 b /\ forall i j, at_ a i j = at_ b i j.

(** The last steps of the rounding, on a mantissa of 53 bits or on 2^53. *)
Definition finish (m e : Z) : float :=
  let '(mrs, e') := shr_fexp prec emax m e loc_Exact in
  match shr_m mrs with
  | Z0 => S754_zero false
  | Zpos p => if e' <=? emax - prec then S754_finite false p e' else S754_infinity false
  | Zneg _ => S754_nan
  end.

(** ** The command line *)

(** [s.rstrip(chars)] *)
Fixpoint rstrip_chars (chars s : string) : string :=
  match s with
  | EmptyString => EmptyString
  | String c r =>
      let r' := rstrip_chars chars r in
      if contains (String c EmptyString) chars && negb (truthy r')
      then EmptyString else String c r'
  end.

(** [str(n)] for an integer *)
Definition str_of_int (n : Z) : string := NilZero.string_of_int (Z.to_int n).

Module cli.

(** The base address that [main] exports as [IIIF_BASE_URL], from the
    options [--url] and [--port]. *)
Definition base_url (url : option string) (port : Z) : string :=
  let by_port := "http://localhost:" ++ str_of_int port in
  match url with
  | Some u => if truthy u then rstrip_chars "/" u else by_port
  | None => by_port
  end.

End cli.

(** * Properties *)

(** ** The recursion of [parse_size] *)

Lemma parse_size_eq size rw rh :
  parse_size size rw rh =
  match parse_size_step size rw rh with
  | Return r => r
  | Recurse rest => parse_size rest rw rh
  end.
Proof.
  rewrite parse_size_equation_1.
  generalize (inspect (parse_size_step size rw rh)).
  intros [[r|rest] H];
    [rewrite parse_size_clause_1_equation_1
    |rewrite parse_size_clause_1_equation_2];
    rewrite H; reflexivity.
Qed.

Lemma parse_size_step_recurse size rw rh rest :
  parse_size_step size rw rh = Recurse rest ->
  size = String "^" rest /\ (String.length rest < String.length size)%nat.
Proof.
  unfold parse_size_step.
  destruct (size =? "max")%string; [discriminate|].
  destruct size as [|c size']; [cbn; discriminate|].
  destruct (startswith "^" (String c size')) eqn:E; [|discriminate].
  intros [= <-]. cbn [startswith] in E.
  rewrite andb_true_r in E. apply Ascii.eqb_eq in E. subst c.
  split; [reflexivity | cbn; lia].
Qed.

Lemma parse_size_fuel_enough fuel : forall size rw rh,
  (String.length size < fuel)%nat ->
  parse_size_fuel fuel size rw rh = Some (parse_size size rw rh).
Proof.
  induction fuel as [|fuel IH]; intros size rw rh Hlt; [lia|].
  cbn [parse_size_fuel]. rewrite (parse_size_eq size).
  destruct (parse_size_step size rw rh) as [r|rest] eqn:E; [reflexivity|].
  apply parse_size_step_recurse in E. apply IH. lia.
Qed.

(** C10. [parse_size] terminates on every token and every pair of extents:
    an activation either returns or calls itself once, on the token without
    its leading [^], which is one character shorter; so a call depth of one
    more than the length of the token always produces the result. *)
Theorem parse_size_terminates (size : string) (rw rh : Z) :
  (forall rest,
      parse_size_step size rw rh = Recurse rest ->
      size = String "^" rest
      /\ String.length rest = (String.length size - 1)%nat
      /\ (String.length rest < String.length size)%nat)
  /\ (forall fuel,
         (String.length size < fuel)%nat ->
         parse_size_fuel fuel size rw rh = Some (parse_size size rw rh))
  /\ exists r,
      parse_size_fuel (S (String.length size)) size rw rh = Some r.
Proof.
  split; [|split].
  - intros rest H. destruct (parse_size_step_recurse _ _ _ _ H) as [-> Hlt].
    cbn. repeat split; lia.
  - intros fuel H. now apply parse_size_fuel_enough.
  - eexists. apply parse_size_fuel_enough. lia.
Qed.

Lemma parse_size_terminates_witness :
  parse_size_step "^^max" 200 100 = Recurse "^max"
  /\ parse_size_fuel 6 "^^max" 200 100 = Some (Ok (200, 100)).
Proof.
  split; [reflexivity|].
  destruct (parse_size_terminates "^^max" 200 100) as (_ & H & _).
  rewrite (H 6%nat); [reflexivity | cbn; lia].
Defined.

(** ** The best-fit form *)

Lemma py_int_bang s : py_int (String "!" s) = Raise ValueError.
Proof. reflexivity. Qed.

Lemma contains_comma_split s :
  contains "," s = true -> exists a b l, split "," s = a :: b :: l.
Proof.
  induction s as [|c s IH]; [discriminate|].
  cbn [contains startswith split]. rewrite andb_true_r.
  destruct (Ascii.eqb "," c) eqn:E.
  - apply Ascii.eqb_eq in E. subst c. intros _. cbn.
    destruct (split "," s) as [|h t] eqn:Es; [|eauto].
    destruct s; cbn in Es; [discriminate|].
    destruct (Ascii.eqb _ _); [discriminate|].
    destruct (split "," s); discriminate.
  - cbn [orb]. intros H. destruct (IH H) as (a & b & l & ->).
    rewrite Ascii.eqb_sym, E. eauto.
Qed.

(** Every token [!...] with a comma is taken by the [w,h] forms, where
    [int()] refuses the field that starts with [!]: the best-fit form is
    never reached. *)
Lemma parse_size_bestfit_unreachable rest rw rh :
  contains "," rest = true ->
  parse_size (String "!" rest) rw rh = Raise ValueError.
Proof.
  intros Hc. rewrite parse_size_eq.
  unfold parse_size_step.
  change (String "!" rest =? "max")%string with false.
  change (startswith "^" (String "!" rest)) with false.
  cbv iota. unfold parse_size_forms.
  change (startswith "pct:" (String "!" rest)) with false. cbv iota.
  unfold parse_size_comma.
  replace (contains "," (String "!" rest)) with true by (cbn; now rewrite Hc).
  destruct (contains_comma_split _ Hc) as (a & b & l & Hs).
  cbn [split]. change (Ascii.eqb "!" ",") with false. cbv iota. rewrite Hs.
  destruct l as [|x l]; [|reflexivity].
  cbn [truthy andb negb]. rewrite py_int_bang.
  destruct (truthy b); reflexivity.
Qed.

(** What the best-fit form computes on the two examples, were it reached. *)
Lemma parse_size_bestfit_examples :
  parse_size_bestfit "100,50" 200 100 = Ok (Some (100, 50))
  /\ parse_size_bestfit "100,50" 200 200 = Ok (Some (50, 50)).
Proof. split; vm_compute; reflexivity. Qed.

(** C1 (the code departs from it). On the two examples of the best-fit form,
    [parse_size("!100,50", 200, 100)] and [parse_size("!100,50", 200, 200)],
    the code raises [ValueError] instead of returning (100, 50) and
    (50, 50): the test for a comma comes before the test for [!], and
    [int("!100")] fails. *)
Theorem parse_size_bestfit_raises :
  parse_size "!100,50" 200 100 = Raise ValueError
  /\ parse_size "!100,50" 200 200 = Raise ValueError.
Proof. split; vm_compute; reflexivity. Qed.

(** ** Malformed tokens *)

(** C2 (the code departs from it). A region of four fields that are not
    integers, a percentage size that is not a number and a size of three
    fields raise [ValueError], whatever the extents: the parsers do not fall
    back to the full region or to the unchanged size. *)
Theorem parsers_raise_on_malformed_tokens :
  (forall W H, parse_region "a,b,c,d" W H = Raise ValueError)
  /\ (forall W H, parse_region "pct:a,b,c,d" W H = Raise ValueError)
  /\ (forall rw rh, parse_size "pct:abc" rw rh = Raise ValueError)
  /\ (forall rw rh, parse_size "1,2,3" rw rh = Raise ValueError).
Proof.
  repeat split; intros; try rewrite parse_size_eq; reflexivity.
Qed.

(** ** Sizes below one *)

(** C3 (the code departs from it). Extents written in the token are returned
    as they are: [parse_size("0,0", w, h)] is (0, 0) for all extents, and a
    width of 0 or below also comes out of the [w,] form and of a bare
    number. *)
Theorem parse_size_returns_zero_extent :
  (forall rw rh, parse_size "0,0" rw rh = Ok (0, 0))
  /\ parse_size "0," 200 100 = Ok (0, 1)
  /\ parse_size "0" 200 100 = Ok (0, 1)
  /\ parse_size "-5,3" 200 100 = Ok (-5, 3).
Proof.
  repeat split; intros; try rewrite parse_size_eq; reflexivity.
Qed.

(** ** The square region *)

(** C6. For all positive extents [w] and [h], [parse_region("square", w, h)]
    is a square of side [min(w, h)] inside the source: the full extent when
    [w = h]; at [x = (w - h) // 2], [y = 0] when [w > h]; at [x = 0],
    [y = (h - w) // 2] when [h > w]. *)
Theorem parse_region_square (w h : Z) :
  0 < w -> 0 < h ->
  exists x y side,
    parse_region "square" w h = Ok (x, y, side, side)
    /\ side = Z.min w h
    /\ (w = h -> (x, y, side, side) = (0, 0, w, h))
    /\ (w > h -> x = (w - h) / 2 /\ y = 0)
    /\ (h > w -> x = 0 /\ y = (h - w) / 2)
    /\ 0 <= x /\ x + side <= w /\ 0 <= y /\ y + side <= h.
Proof.
  intros Hw Hh. unfold parse_region.
  change ("square" =? "full")%string with false.
  change ("square" =? "square")%string with true. cbv iota.
  destruct (Z.eqb_spec w h) as [->|Hne].
  - exists 0, 0, h. rewrite Z.min_id. repeat split; try lia.
  - destruct (Z.gtb_spec w h) as [Hgt|Hle].
    + exists ((w - h) / 2), 0, h.
      assert (0 <= (w - h) / 2) by (apply Z.div_pos; lia).
      assert (2 * ((w - h) / 2) <= w - h) by (apply Z.mul_div_le; lia).
      repeat split; try lia.
    + exists 0, ((h - w) / 2), w.
      assert (0 <= (h - w) / 2) by (apply Z.div_pos; lia).
      assert (2 * ((h - w) / 2) <= h - w) by (apply Z.mul_div_le; lia).
      repeat split; try lia.
Qed.

Lemma parse_region_square_witness :
  exists x y side,
    parse_region "square" 400 200 = Ok (x, y, side, side)
    /\ side = Z.min 400 200
    /\ (400 = 200 -> (x, y, side, side) = (0, 0, 400, 200))
    /\ (400 > 200 -> x = (400 - 200) / 2 /\ y = 0)
    /\ (200 > 400 -> x = 0 /\ y = (200 - 400) / 2)
    /\ 0 <= x /\ x + side <= 400 /\ 0 <= y /\ y + side <= 200.
Proof. apply (parse_region_square 400 200); lia. Defined.

(** ** Tokens of four fields *)

Lemma split_four_not_keyword tok a b c d :
  split "," tok = [a; b; c; d] ->
  (tok =? "full")%string = false /\ (tok =? "square")%string = false.
Proof.
  intros H. split.
  - destruct (String.eqb_spec tok "full") as [->|]; [discriminate|reflexivity].
  - destruct (String.eqb_spec tok "square") as [->|];
      [discriminate|reflexivity].
Qed.

Lemma parse_region_abs_four tok sx sy sw sh x y w h W H :
  split "," tok = [sx; sy; sw; sh] ->
  py_int sx = Ok x -> py_int sy = Ok y -> py_int sw = Ok w -> py_int sh = Ok h ->
  startswith "pct:" tok = false ->
  parse_region tok W H
  = Ok (Z.max 0 (Z.min x W), Z.max 0 (Z.min y H),
        Z.min w (W - Z.max 0 (Z.min x W)), Z.min h (H - Z.max 0 (Z.min y H))).
Proof.
  intros Hs Hx Hy Hw Hh Hp.
  destruct (split_four_not_keyword _ _ _ _ _ Hs) as [Hf Hq].
  unfold parse_region, parse_region_pct, parse_region_abs.
  rewrite Hf, Hq, Hp. cbn [bind]. rewrite Hs, Hx, Hy, Hw, Hh. reflexivity.
Qed.

(** ** The image file of an identifier *)

Section ServerProperties.

Context {env : Env}.

Lemma first_available_some identifier exts p :
  first_available identifier exts = Ok (Some p) <->
  exists l1 ext l2,
    exts = (l1 ++ ext :: l2)%list
    /\ p = PathJoin image_dir (identifier ++ ext)
    /\ path_exists p = Ok true
    /\ forall e, In e l1 ->
         path_exists (PathJoin image_dir (identifier ++ e)) = Ok false.
Proof.
  induction exts as [|e exts IH]; cbn [first_available].
  - split; [discriminate|]. intros (l1 & ext & l2 & H & _). now destruct l1.
  - destruct (path_exists (PathJoin image_dir (identifier ++ e)))
      as [[|]|x] eqn:E; cbn [bind].
    + split.
      * intros [= <-]. exists [], e, exts. repeat split; auto. intros ? [].
      * intros (l1 & ext & l2 & H & -> & Hp & Hl1).
        destruct l1 as [|e' l1]; cbn in H; injection H as -> ->;
          [reflexivity|].
        rewrite Hl1 in E by (now left). discriminate.
    + rewrite IH. split.
      * intros (l1 & ext & l2 & -> & -> & Hp & Hl1).
        exists (e :: l1), ext, l2. repeat split; auto.
        intros e' [<-|Hin]; auto.
      * intros (l1 & ext & l2 & H & -> & Hp & Hl1).
        destruct l1 as [|e' l1]; cbn in H; injection H as -> ->.
        -- rewrite Hp in E. discriminate.
        -- exists l1, ext, l2. repeat split; auto.
           intros; apply Hl1; now right.
    + split; [discriminate|].
      intros (l1 & ext & l2 & H & -> & Hp & Hl1).
      destruct l1 as [|e' l1]; cbn in H; injection H as -> ->.
      * rewrite Hp in E. discriminate.
      * rewrite Hl1 in E by (now left). discriminate.
Qed.

Lemma first_available_none identifier exts :
  first_available identifier exts = Ok None <->
  forall e, In e exts ->
    path_exists (PathJoin image_dir (identifier ++ e)) = Ok false.
Proof.
  induction exts as [|e exts IH]; cbn [first_available].
  - split; auto. intros _ ? [].
  - destruct (path_exists (PathJoin image_dir (identifier ++ e)))
      as [[|]|x] eqn:E; cbn [bind].
    + split; [discriminate|]. intros H.
      rewrite H in E by (now left). discriminate.
    + rewrite IH. split.
      * intros H e' [<-|Hin]; auto.
      * intros H e' Hin. apply H. now right.
    + split; [discriminate|]. intros H.
      rewrite H in E by (now left). discriminate.
Qed.

Lemma first_available_raise identifier exts x :
  first_available identifier exts = Raise x <->
  exists l1 ext l2,
    exts = (l1 ++ ext :: l2)%list
    /\ path_exists (PathJoin image_dir (identifier ++ ext)) = Raise x
    /\ forall e, In e l1 ->
         path_exists (PathJoin image_dir (identifier ++ e)) = Ok false.
Proof.
  induction exts as [|e exts IH]; cbn [first_available].
  - split; [discriminate|]. intros (l1 & ext & l2 & H & _). now destruct l1.
  - destruct (path_exists (PathJoin image_dir (identifier ++ e)))
      as [[|]|x'] eqn:E; cbn [bind].
    + split; [discriminate|].
      intros (l1 & ext & l2 & H & Hp & Hl1).
      destruct l1 as [|e' l1]; cbn in H; injection H as -> ->.
      * rewrite Hp in E. discriminate.
      * rewrite Hl1 in E by (now left). discriminate.
    + rewrite IH. split.
      * intros (l1 & ext & l2 & -> & Hp & Hl1).
        exists (e :: l1), ext, l2. repeat split; auto.
        intros e' [<-|Hin]; auto.
      * intros (l1 & ext & l2 & H & Hp & Hl1).
        destruct l1 as [|e' l1]; cbn in H; injection H as -> ->.
        -- rewrite Hp in E. discriminate.
        -- exists l1, ext, l2. repeat split; auto.
           intros; apply Hl1; now right.
    + split.
      * intros [= <-]. exists [], e, exts. repeat split; auto. intros ? [].
      * intros (l1 & ext & l2 & H & Hp & Hl1).
        destruct l1 as [|e' l1]; cbn in H; injection H as -> ->.
        -- congruence.
        -- rewrite Hl1 in E by (now left). discriminate.
Qed.

(** C8. An identifier that contains [..], [/] or [\] is not found, whatever
    the file system holds and whatever its probes do: none is made. Any
    other identifier that ends in none of the recognized extensions resolves
    to the first candidate [identifier + ext] that exists, the extensions
    being probed in the order [.jpg], [.jpeg], [.png], [.tiff], [.tif],
    [.webp], [.jp2], [.pdf]; it is not found exactly when every probe
    answers that the candidate does not exist. A probe may also fail: the
    call raises exactly when a probe raises before any candidate is found,
    with that error. *)
Theorem find_image_file_spec (identifier : string) :
  (contains ".." identifier = true \/ contains "/" identifier = true
   \/ contains "\" identifier = true ->
   find_image_file identifier = Ok None)
  /\ (contains ".." identifier = false -> contains "/" identifier = false ->
      contains "\" identifier = false ->
      (forall ext, In ext accepted_formats -> endswith ext identifier = false) ->
      accepted_formats
        = [".jpg"; ".jpeg"; ".png"; ".tiff"; ".tif"; ".webp"; ".jp2"; ".pdf"]
      /\ (forall p,
            find_image_file identifier = Ok (Some p) <->
            exists l1 ext l2,
              accepted_formats = (l1 ++ ext :: l2)%list
              /\ p = PathJoin image_dir (identifier ++ ext)
              /\ path_exists p = Ok true
              /\ forall e, In e l1 ->
                   path_exists (PathJoin image_dir (identifier ++ e))
                   = Ok false)
      /\ (find_image_file identifier = Ok None <->
          forall e, In e accepted_formats ->
            path_exists (PathJoin image_dir (identifier ++ e)) = Ok false)
      /\ (forall x,
            find_image_file identifier = Raise x <->
            exists l1 ext l2,
              accepted_formats = (l1 ++ ext :: l2)%list
              /\ path_exists (PathJoin image_dir (identifier ++ ext))
                 = Raise x
              /\ forall e, In e l1 ->
                   path_exists (PathJoin image_dir (identifier ++ e))
                   = Ok false)).
Proof.
  unfold find_image_file. cbn [existsb path_delimiters]. split.
  - intros [H|[H|H]]; rewrite H; cbn [orb]; rewrite ?orb_true_r; reflexivity.
  - intros H1 H2 H3 Hext. rewrite H1, H2, H3. cbn [orb].
    assert (existsb (fun ext => endswith ext identifier) accepted_formats
            = false) as ->.
    { apply not_true_is_false. intros H. apply existsb_exists in H.
      destruct H as (e & Hin & He). rewrite (Hext e Hin) in He.
      discriminate. }
    cbn [bind]. split; [reflexivity|]. split; [|split].
    + intros p. apply first_available_some.
    + apply first_available_none.
    + intros x. apply first_available_raise.
Qed.

(** ** Rotation *)

(** The values met on the token [90]: it reads as 90.0, a multiple of 90
    that stays 90.0 modulo 360. *)
Lemma rotation_90_values :
  exists f90,
    py_float "90" = Ok f90
    /\ float_is f90 (inject_Z 90)
    /\ float_eq_int f90 0 = false
    /\ float_mod_int f90 90 = Ok (S754_zero false)
    /\ float_mod_int f90 360 = Ok f90
    /\ float_eq_int f90 90 = true.
Proof.
  eexists. split; [vm_compute; reflexivity|].
  split; [eexists; split; [reflexivity | vm_compute; reflexivity]|].
  repeat split; vm_compute; reflexivity.
Qed.

(** C9. On every raster with positive extents, the token [0] returns the
    raster itself; the token [90] applies one quarter turn clockwise and
    nothing else, which swaps the two extents and moves each pixel without
    changing it (the opposite quarter turn brings every pixel back); the
    token [!0] applies one horizontal flip and no rotation. *)
Theorem apply_rotation_basic (image : ndarray) :
  0 < shape_h image -> 0 < shape_w image ->
  apply_rotation image "0" = Ok image
  /\ apply_rotation image "90" = Ok (cv2_rotate image ROTATE_90_CLOCKWISE)
  /\ shape2 (cv2_rotate image ROTATE_90_CLOCKWISE)
     = (shape_w image, shape_h image)
  /\ (forall i j,
        at_ (cv2_rotate image ROTATE_90_CLOCKWISE) i j
        = at_ image (shape_h image - 1 - j) i)
  /\ (forall i j,
        at_ (cv2_rotate (cv2_rotate image ROTATE_90_CLOCKWISE)
               ROTATE_90_COUNTERCLOCKWISE) i j
        = at_ image i j)
  /\ apply_rotation image "!0" = Ok (cv2_flip_horizontal image)
  /\ shape2 (cv2_flip_horizontal image) = shape2 image
  /\ (forall i j,
        at_ (cv2_flip_horizontal image) i j
        = at_ image i (shape_w image - 1 - j)).
Proof.
  intros _ _.
  split; [reflexivity|].
  split; [vm_compute; reflexivity|].
  split; [reflexivity|].
  split; [reflexivity|].
  split; [intros i j; cbn; f_equal; lia|].
  split; [vm_compute; reflexivity|].
  split; reflexivity.
Qed.

(** ** The log of the pipeline *)

Lemma appends_ret {A : Type} (a : A) : appends (ret a).
Proof. intros log. exists []. cbn. now rewrite app_nil_r. Qed.

Lemma appends_lift {A : Type} (r : result A) : appends (lift r).
Proof. intros log. exists []. cbn. now rewrite app_nil_r. Qed.

Lemma appends_tell (s : stage) : appends (tell s).
Proof. intros log. exists [s]. reflexivity. Qed.

Lemma appends_mbind {A B : Type} (m : M A) (k : A -> M B) :
  appends m -> (forall a, appends (k a)) -> appends (mbind m k).
Proof.
  intros Hm Hk log. unfold mbind. destruct (Hm log) as [l Hl].
  destruct (m log) as [[a|e] log']; cbn [snd] in Hl; subst log'.
  - destruct (Hk a (log ++ l)%list) as [l' Hl']. exists (l ++ l')%list.
    now rewrite Hl', app_assoc.
  - now exists l.
Qed.

Lemma appends_rotate_encode (image : ndarray) (req : request) :
  appends (image <~ rotate_stage image req ;; encode_stage image req).
Proof.
  apply appends_mbind.
  - apply appends_mbind; [apply appends_tell | intros; apply appends_lift].
  - intros a. apply appends_mbind; [apply appends_tell | intros; apply appends_lift].
Qed.

Lemma appends_keeps {A : Type} (m : M A) (s : stage) (log : list stage) :
  appends m -> In s log -> In s (snd (m log)).
Proof.
  intros Hm Hin. destruct (Hm log) as [l ->]. apply in_or_app. now left.
Qed.

(** ** The scale stage *)

Lemma parse_size_zero_zero rw rh : parse_size "0,0" rw rh = Ok (0, 0).
Proof. rewrite parse_size_eq. reflexivity. Qed.

Lemma crop_stage_full (image : ndarray) (req : request) (log : list stage) :
  region req = "full" -> 0 < shape_w image -> 0 < shape_h image ->
  crop_stage image req log
  = (Ok (crop image 0 (shape_h image) 0 (shape_w image)),
     (log ++ [Crop 0 (shape_h image) 0 (shape_w image)])%list).
Proof.
  intros Hr HW HH. unfold crop_stage, shape2. rewrite Hr.
  unfold mbind, lift, tell, ret.
  change (parse_region "full" (shape_w image) (shape_h image))
    with (Ok (0, 0, shape_w image, shape_h image)).
  cbv beta iota zeta.
  assert ((shape_w image >? 0) = true) as ->
    by (rewrite Z.gtb_ltb; now apply Z.ltb_lt).
  assert ((shape_h image >? 0) = true) as ->
    by (rewrite Z.gtb_ltb; now apply Z.ltb_lt).
  rewrite !Z.add_0_l. reflexivity.
Qed.

Lemma crop_full_shape (image : ndarray) :
  0 < shape_w image -> 0 < shape_h image ->
  shape2 (crop image 0 (shape_h image) 0 (shape_w image)) = shape2 image.
Proof.
  intros HW HH. unfold shape2, crop, adjust_index. cbn [shape_h shape_w].
  change (0 <? 0) with false. cbv iota.
  assert ((shape_h image <? 0) = false) as -> by (apply Z.ltb_ge; lia).
  assert ((shape_w image <? 0) = false) as -> by (apply Z.ltb_ge; lia).
  f_equal; lia.
Qed.

Lemma scale_stage_zero_zero (image : ndarray) (req : request) (log : list stage) :
  size req = "0,0" -> 0 < shape_w image ->
  scale_stage image req log
  = (cv2_resize image (0, 0), (log ++ [Resize 0 0])%list).
Proof.
  intros Hs HW. unfold scale_stage, shape2. rewrite Hs.
  unfold mbind, lift, tell. rewrite parse_size_zero_zero.
  assert ((0 =? shape_w image) = false) as -> by (apply Z.eqb_neq; lia).
  cbn [negb orb]. now destruct (cv2_resize image (0, 0)).
Qed.

(** C4 (the code departs from it). Only the crop has a guard; the scale stage
    has none. On any decoded image with positive extents, the request with
    region [full] and size [0,0] reaches [cv2.resize] with the target
    (0, 0): the stage is applied, not skipped. *)
Theorem scale_stage_resizes_to_zero (req : request) (image : ndarray) (p : Path) :
  find_image_file (identifier req) = Ok (Some p) ->
  cv2_imread p = Some image ->
  0 < shape_w image -> 0 < shape_h image ->
  region req = "full" -> size req = "0,0" ->
  In (Resize 0 0) (snd (get_image req)).
Proof.
  intros Hf Hi HW HH Hr Hs. unfold get_image. rewrite Hf, Hi.
  assert (In (Resize 0 0) (snd (render image req []))) as Hin.
  { unfold render. unfold mbind at 1. rewrite (crop_stage_full _ _ _ Hr HW HH).
    unfold mbind at 1. rewrite scale_stage_zero_zero; [|exact Hs|].
    2:{ change (shape_w (crop image 0 (shape_h image) 0 (shape_w image)))
          with (snd (shape2 (crop image 0 (shape_h image) 0 (shape_w image)))).
        now rewrite crop_full_shape. }
    destruct (cv2_resize _ _) as [a|e].
    - apply appends_keeps; [apply appends_rotate_encode|]. cbn. auto.
    - cbn. auto. }
  destruct (render image req []) as [[b|e] log]; exact Hin.
Qed.

(** ** The absolute region *)

(** C5 (amended). A token of four comma-separated integers [x,y,w,h] gives
    [x] clamped to [0..W], [y] clamped to [0..H], then the width
    [min(w, W - x)] and the height [min(h, H - y)]. When the given [x] is at
    least [W], the width is [min(w, 0)]: it is 0 when [w >= 0], the negative
    [w] itself otherwise; in both cases the crop is skipped and the source
    raster goes on unchanged. *)
Theorem parse_region_absolute tok sx sy sw sh x y w h W H image req :
  split "," tok = [sx; sy; sw; sh] ->
  py_int sx = Ok x -> py_int sy = Ok y -> py_int sw = Ok w -> py_int sh = Ok h ->
  startswith "pct:" tok = false ->
  0 < W -> 0 < H ->
  shape2 image = (H, W) -> region req = tok ->
  let x' := Z.max 0 (Z.min x W) in
  let y' := Z.max 0 (Z.min y H) in
  parse_region tok W H = Ok (x', y', Z.min w (W - x'), Z.min h (H - y'))
  /\ 0 <= x' <= W /\ 0 <= y' <= H
  /\ (W <= x ->
      Z.min w (W - x') = Z.min w 0
      /\ (0 <= w -> Z.min w (W - x') = 0)
      /\ crop_stage image req [] = (Ok image, [])).
Proof.
  intros Hs Hx Hy Hw Hh Hp HW HH Hshape Hreq x' y'.
  pose proof (parse_region_abs_four _ _ _ _ _ _ _ _ _ W H Hs Hx Hy Hw Hh Hp)
    as Hr.
  fold x' y' in Hr. split; [exact Hr|].
  split; [subst x'; lia|]. split; [subst y'; lia|].
  intros Hge. assert (x' = W) as Ex by (subst x'; lia).
  split; [rewrite Ex; f_equal; lia|]. split; [lia|].
  unfold crop_stage. rewrite Hshape, Hreq. unfold mbind, lift. rewrite Hr.
  assert ((Z.min w (W - x') >? 0) = false) as ->
    by (rewrite Z.gtb_ltb; apply Z.ltb_ge; lia).
  reflexivity.
Qed.

End ServerProperties.

Lemma scale_stage_resizes_to_zero_witness :
  In (Resize 0 0)
     (snd (get_image (env := sample_env) (sample_request "full" "0,0" "0"))).
Proof.
  apply (scale_stage_resizes_to_zero (env := sample_env)
           (sample_request "full" "0,0" "0") sample_image
           (PathJoin "/testimages/" "page1.jpg"));
    reflexivity.
Defined.

(** The guard of the crop looks at the requested extents, not at the slice:
    a percentage region beyond the source passes it and leaves a raster
    without columns. *)
Lemma crop_stage_degenerate :
  exists image,
    crop_stage sample_image (sample_request "pct:200,0,50,50" "max" "0") []
    = (Ok image, [Crop 0 1 8 10])
    /\ shape2 image = (1, 0).
Proof. eexists. split; vm_compute; reflexivity. Qed.

Lemma find_image_file_spec_witness :
  find_image_file (env := sample_env) "../page1" = Ok None
  /\ find_image_file (env := sample_env) "page1"
     = Ok (Some (PathJoin "/testimages/" "page1.jpg"))
  /\ find_image_file (env := sample_env) "page2" = Ok None
  /\ find_image_file (env := sample_env) long_identifier = Raise OSError.
Proof.
  split; [|split; [|split]].
  - apply (proj1 (find_image_file_spec (env := sample_env) "../page1")).
    left. reflexivity.
  - destruct (find_image_file_spec (env := sample_env) "page1") as [_ H].
    destruct H as (_ & Hsome & _);
      [reflexivity | reflexivity | reflexivity | | ].
    + intros ext Hin.
      repeat (destruct Hin as [<-|Hin]; [reflexivity|]). destruct Hin.
    + apply Hsome.
      exists [], ".jpg",
        [".jpeg"; ".png"; ".tiff"; ".tif"; ".webp"; ".jp2"; ".pdf"].
      repeat split. intros e [].
  - destruct (find_image_file_spec (env := sample_env) "page2") as [_ H].
    destruct H as (_ & _ & Hnone & _);
      [reflexivity | reflexivity | reflexivity | | ].
    + intros ext Hin.
      repeat (destruct Hin as [<-|Hin]; [reflexivity|]). destruct Hin.
    + apply Hnone. intros e Hin.
      repeat (destruct Hin as [<-|Hin]; [reflexivity|]). destruct Hin.
  - destruct (find_image_file_spec (env := sample_env) long_identifier)
      as [_ H].
    destruct H as (_ & _ & _ & Hraise);
      [vm_compute; reflexivity | vm_compute; reflexivity
       | vm_compute; reflexivity | | ].
    + intros ext Hin.
      repeat (destruct Hin as [<-|Hin]; [vm_compute; reflexivity|]).
      destruct Hin.
    + apply Hraise.
      exists [], ".jpg",
        [".jpeg"; ".png"; ".tiff"; ".tif"; ".webp"; ".jp2"; ".pdf"].
      split; [reflexivity|]. split; [vm_compute; reflexivity|]. intros e [].
Defined.

Lemma apply_rotation_basic_witness :
  apply_rotation (env := sample_env) sample_image "90"
  = Ok (cv2_rotate sample_image ROTATE_90_CLOCKWISE)
  /\ shape2 (cv2_rotate sample_image ROTATE_90_CLOCKWISE) = (4, 2)
  /\ apply_rotation (env := sample_env) sample_image "!0"
     = Ok (cv2_flip_horizontal sample_image).
Proof.
  destruct (apply_rotation_basic (env := sample_env) sample_image)
    as (_ & H90 & Hshape & _ & _ & Hflip & _);
    [reflexivity | reflexivity |].
  split; [exact H90|]. split; [exact Hshape | exact Hflip].
Defined.

(** C5, as first stated, fails on a negative width: with [x = 10 >= W = 10]
    the token [10,0,-5,5] gives the width -5, not 0. *)
Lemma parse_region_absolute_negative_width :
  split "," "10,0,-5,5" = ["10"; "0"; "-5"; "5"]
  /\ py_int "10" = Ok 10
  /\ py_int "-5" = Ok (-5)
  /\ 10 >= 10
  /\ parse_region "10,0,-5,5" 10 10 = Ok (10, 0, -5, 5)
  /\ -5 <> 0.
Proof. repeat split; try reflexivity; discriminate. Qed.

Lemma parse_region_absolute_witness :
  parse_region "4,0,2,1" 4 2 = Ok (4, 0, 0, 1)
  /\ crop_stage sample_image (sample_request "4,0,2,1" "max" "0") []
     = (Ok sample_image, []).
Proof.
  destruct (parse_region_absolute "4,0,2,1" "4" "0" "2" "1" 4 0 2 1 4 2
              sample_image (sample_request "4,0,2,1" "max" "0"))
    as (H1 & _ & _ & H2); try reflexivity.
  split; [exact H1|]. apply H2. discriminate.
Defined.

(** ** The percentage region *)

Lemma Qtrunc_inject_Z k : Qtrunc (inject_Z k) = k.
Proof.
  unfold Qtrunc.
  destruct (Qle_bool _ _); [apply Qfloor_Z | apply Qceiling_Z].
Qed.

(** On a value that is not negative, truncation is the floor. *)
Lemma Qtrunc_nonneg q : (0 <= q)%Q -> Qtrunc q = Qfloor q.
Proof. intros H. unfold Qtrunc. apply Qle_bool_iff in H. now rewrite H. Qed.

(** [int()] of a finite [float] is its value rounded toward zero. *)
Lemma int_of_float_trunc f q :
  float_value f = Some q -> int_of_float f = Ok (Qtrunc q).
Proof.
  destruct f as [s|s| |s m e]; cbn [float_value int_of_float];
    try discriminate.
  - intros [= <-]. reflexivity.
  - intros [= <-]. f_equal. destruct e as [|p|p].
    + rewrite Qtrunc_inject_Z. destruct s; cbn [cond_Zopp]; lia.
    + rewrite Qtrunc_inject_Z. destruct s; cbn [cond_Zopp]; lia.
    + assert (2 ^ Z.pos p = Z.pos (2 ^ p)) as ->
        by (now rewrite Pos2Z.inj_pow).
      destruct s; cbn [cond_Zopp]; unfold Qtrunc.
      * change (Qle_bool 0 (- Z.pos m # 2 ^ p)) with false. cbv iota.
        unfold Qceiling. cbn. reflexivity.
      * change (Qle_bool 0 (Z.pos m # 2 ^ p)) with true. reflexivity.
Qed.

(** C7 (amended). For a token [pct:x,y,w,h] of four numbers, each coordinate
    is the binary64 value of [dimension * pct / 100] (x and w on the source
    width, y and h on the source height), when that value is finite, rounded
    toward zero; no clamping to the source is applied. The rounding is the
    floor only for values that are not negative, and the binary64 value is
    not always the exact product. *)
Theorem parse_region_pct_truncates
  tok sx sy sw sh fx fy fw fh dx dy dw dh qx qy qw qh W H :
  startswith "pct:" tok = true ->
  split "," (slice_from 4 tok) = [sx; sy; sw; sh] ->
  py_float sx = Ok fx -> py_float sy = Ok fy ->
  py_float sw = Ok fw -> py_float sh = Ok fh ->
  pct_of W fx = Ok dx -> pct_of H fy = Ok dy ->
  pct_of W fw = Ok dw -> pct_of H fh = Ok dh ->
  float_value dx = Some qx -> float_value dy = Some qy ->
  float_value dw = Some qw -> float_value dh = Some qh ->
  parse_region tok W H = Ok (Qtrunc qx, Qtrunc qy, Qtrunc qw, Qtrunc qh).
Proof.
  intros Hp Hs Hfx Hfy Hfw Hfh Hdx Hdy Hdw Hdh Hqx Hqy Hqw Hqh.
  unfold parse_region.
  destruct (String.eqb_spec tok "full") as [->|_]; [discriminate|].
  destruct (String.eqb_spec tok "square") as [->|_]; [discriminate|].
  unfold parse_region_pct. rewrite Hp, Hs, Hfx, Hfy, Hfw, Hfh. cbn [bind].
  unfold scale_pct. rewrite Hdx, Hdy, Hdw, Hdh. cbn [bind].
  rewrite (int_of_float_trunc _ _ Hqx), (int_of_float_trunc _ _ Hqy),
    (int_of_float_trunc _ _ Hqw), (int_of_float_trunc _ _ Hqh).
  reflexivity.
Qed.

Lemma parse_region_pct_truncates_witness :
  parse_region "pct:25,150,50,-0.5" 400 200 = Ok (100, 300, 200, -1).
Proof.
  erewrite (parse_region_pct_truncates "pct:25,150,50,-0.5"
              "25" "150" "50" "-0.5");
    [ | vm_compute; reflexivity .. ].
  vm_compute. reflexivity.
Defined.

(** C7, as first stated, fails on a negative percentage: the token
    [pct:-0.5,0,100,100] on a 100 by 100 source gives [x = 0], the value
    -0.5 rounded toward zero, where [floor(-0.5 / 100 * 100)] is -1. *)
Lemma parse_region_pct_not_floor :
  exists f,
    py_float "-0.5" = Ok f
    /\ float_is f (- (1 # 2))
    /\ parse_region "pct:-0.5,0,100,100" 100 100 = Ok (0, 0, 100, 100)
    /\ pct_floor (- (1 # 2)) 100 = -1.
Proof.
  eexists. split; [vm_compute; reflexivity|].
  split; [eexists; split; [reflexivity | vm_compute; reflexivity]|].
  split; vm_compute; reflexivity.
Qed.

(** Nor is the floor met on every percentage that is not negative: [0.7]
    reads as a binary64 number just below 7/10, whose exact share of 1000 is
    below 7, while the rounded product gives 7. *)
Lemma parse_region_pct_rounding :
  exists f q,
    py_float "0.7" = Ok f
    /\ float_value f = Some q
    /\ (q < 7 # 10)%Q
    /\ parse_region "pct:0.7,0,0,0" 1000 1000 = Ok (7, 0, 0, 0)
    /\ pct_floor q 1000 = 6.
Proof.
  do 2 eexists. split; [vm_compute; reflexivity|].
  split; [reflexivity|]. repeat split; vm_compute; reflexivity.
Qed.

(** ** Rotation tokens that are not numbers *)

(** A rotation that [float()] refuses leaves the raster as it is, mirrored
    when the token starts with [!]. *)
Lemma apply_rotation_not_a_number {env : Env} (image : ndarray) (tok : string) :
  py_float tok = Raise ValueError ->
  startswith "!" tok = false ->
  apply_rotation image tok = Ok image
  /\ apply_rotation image (String "!" tok) = Ok (cv2_flip_horizontal image).
Proof.
  intros Hf Hb. unfold apply_rotation.
  change (startswith "!" (String "!" tok)) with true.
  change (slice_from 1 (String "!" tok)) with tok.
  change (String "!" tok =? "0")%string with false.
  rewrite Hb. cbv iota. unfold rotate_by. rewrite Hf. cbn [bind].
  split; [|reflexivity].
  destruct (tok =? "0")%string; reflexivity.
Qed.


(** * Further properties *)

(** ** Strings *)

Lemma contains_tail sub c s :
  contains sub (String c s) = false -> contains sub s = false.
Proof.
  cbn [contains]. intros H. apply orb_false_iff in H. apply H.
Qed.

Lemma contains_startswith sub s :
  contains sub s = false -> startswith sub s = false.
Proof.
  destruct s; cbn [contains]; intros H; apply orb_false_iff in H; apply H.
Qed.

Lemma split_not_nil sep s : split sep s <> [].
Proof.
  destruct s as [|c s]; cbn [split]; [discriminate|].
  destruct (Ascii.eqb c sep); [discriminate|].
  destruct (split sep s); discriminate.
Qed.

Lemma split_no_comma s : contains "," s = false -> split "," s = [s].
Proof.
  induction s as [|c s IH]; [reflexivity|].
  cbn [contains startswith split]. rewrite andb_true_r. intros H.
  apply orb_false_iff in H. destruct H as [Hc Hs].
  rewrite Ascii.eqb_sym, Hc, (IH Hs). reflexivity.
Qed.

Lemma split_head_char tok c h t :
  split "," tok = String c h :: t ->
  exists r, tok = String c r /\ Ascii.eqb c "," = false.
Proof.
  destruct tok as [|a tok]; cbn [split]; [discriminate|].
  destruct (Ascii.eqb a ",") eqn:E; [discriminate|].
  destruct (split "," tok); intros [= -> _ _]; eauto.
Qed.

(** ** [int()] *)

Lemma split_sign_other c s :
  Ascii.eqb c "+" = false -> Ascii.eqb c "-" = false ->
  split_sign (String c s) = (false, String c s).
Proof.
  destruct c as [[] [] [] [] [] [] [] []]; intros; try reflexivity;
    discriminate.
Qed.

Lemma py_int_start s z :
  py_int s = Ok z -> exists c r, s = String c r /\ int_start c = true.
Proof.
  destruct s as [|c r]; [discriminate|]. intros H. exists c, r.
  split; [reflexivity|]. unfold int_start.
  destruct (is_space c) eqn:Es; [reflexivity|].
  destruct (Ascii.eqb c "+") eqn:Ep; [reflexivity|].
  destruct (Ascii.eqb c "-") eqn:Em; [reflexivity|].
  cbn [orb]. unfold py_int, strip in H. cbn [lstrip rstrip] in H.
  rewrite Es in H. cbn [andb rstrip] in H. rewrite Es in H. cbn [andb] in H.
  rewrite (split_sign_other _ _ Ep Em) in H. cbn [int_digits] in H.
  destruct (Ascii.eqb c "_"); [discriminate|].
  destruct (is_ascii_digit c); [reflexivity | discriminate].
Qed.

Lemma int_start_not_keyword c :
  int_start c = true ->
  Ascii.eqb c "m" = false /\ Ascii.eqb "^" c = false
  /\ Ascii.eqb "p" c = false /\ Ascii.eqb "!" c = false
  /\ Ascii.eqb c "f" = false /\ Ascii.eqb c "s" = false.
Proof.
  destruct c as [[] [] [] [] [] [] [] []]; intros H;
    try discriminate H; repeat split.
Qed.

(** ** The size grammar *)

Lemma parse_size_caret s rw rh :
  parse_size (String "^" s) rw rh = parse_size s rw rh.
Proof.
  rewrite parse_size_eq. unfold parse_size_step.
  change (String "^" s =? "max")%string with false.
  change (startswith "^" (String "^" s)) with true. reflexivity.
Qed.

Lemma parse_size_carets_eq (n : nat) (s : string) (rw rh : Z) :
  parse_size (carets n s) rw rh = parse_size s rw rh.
Proof.
  induction n as [|n IH]; [reflexivity|].
  cbn [carets]. rewrite parse_size_caret. exact IH.
Qed.

Lemma parse_size_step_caret s rw rh :
  parse_size_step (String "^" s) rw rh = Recurse s.
Proof.
  unfold parse_size_step.
  change (String "^" s =? "max")%string with false.
  change (startswith "^" (String "^" s)) with true. reflexivity.
Qed.

Lemma leading_carets_cases s :
  (exists r, s = String "^" r)
  \/ (leading_carets s = 0%nat /\ startswith "^" s = false).
Proof.
  destruct s as [|c r]; [right; split; reflexivity|].
  destruct (Ascii.eqb_spec c "^") as [->|Hne]; [left; eauto|].
  right. destruct c as [[] [] [] [] [] [] [] []];
    first [split; reflexivity | now elim Hne].
Qed.


Lemma parse_size_within_enough room : forall s rw rh,
  (leading_carets s < room)%nat ->
  parse_size_within room s rw rh = parse_size s rw rh.
Proof.
  unfold parse_size_within.
  induction room as [|room IH]; intros s rw rh Hlt; [lia|].
  cbn [parse_size_fuel]. rewrite (parse_size_eq s).
  destruct (leading_carets_cases s) as [[r ->]|[_ Hs]].
  - rewrite parse_size_step_caret. apply IH. cbn [leading_carets] in Hlt. lia.
  - unfold parse_size_step. rewrite Hs.
    now destruct (s =? "max")%string.
Qed.




Lemma startswith_pct_shape tok :
  startswith "pct:" tok = true ->
  (tok =? "max")%string = false /\ startswith "^" tok = false.
Proof.
  intros H. split.
  - destruct (String.eqb_spec tok "max") as [->|]; [discriminate|reflexivity].
  - destruct tok as [|c r]; [discriminate|]. cbn [startswith] in *.
    apply andb_true_iff in H. destruct H as [H _].
    apply Ascii.eqb_eq in H. subst c. reflexivity.
Qed.

(** X2. A percentage size never gives an empty target: whenever
    [parse_size] returns on a token [pct:...], also for a zero, a tiny or a
    negative percentage, both extents are at least 1. *)
Theorem parse_size_pct_at_least_one tok rw rh w h :
  startswith "pct:" tok = true ->
  parse_size tok rw rh = Ok (w, h) ->
  1 <= w /\ 1 <= h.
Proof.
  intros Hp. destruct (startswith_pct_shape _ Hp) as [Hm Hc].
  rewrite parse_size_eq. unfold parse_size_step. rewrite Hm, Hc.
  unfold parse_size_forms. rewrite Hp.
  destruct (py_float (slice_from 4 tok)) as [pct|]; [|discriminate].
  cbn [bind]. destruct (scale_pct rw pct) as [w0|]; [|discriminate].
  cbn [bind]. destruct (scale_pct rh pct) as [h0|]; [|discriminate].
  cbn [bind]. intros [= <- <-]. lia.
Qed.

Lemma parse_size_pct_at_least_one_witness :
  parse_size "pct:0" 200 100 = Ok (1, 1) /\ 1 <= 1 /\ 1 <= 1.
Proof.
  split; [vm_compute; reflexivity|].
  apply (parse_size_pct_at_least_one "pct:0" 200 100 1 1);
    vm_compute; reflexivity.
Defined.

Lemma two_fields_shape tok sw sh w h :
  split "," tok = [sw; sh] -> py_int sw = Ok w -> py_int sh = Ok h ->
  (tok =? "max")%string = false /\ startswith "^" tok = false
  /\ startswith "pct:" tok = false /\ contains "," tok = true
  /\ truthy sw = true /\ truthy sh = true.
Proof.
  intros Hs Hw Hh.
  destruct (py_int_start _ _ Hw) as (c & r & -> & Hc).
  destruct (py_int_start _ _ Hh) as (c' & r' & -> & _).
  destruct (split_head_char _ _ _ _ Hs) as (t & -> & _).
  destruct (int_start_not_keyword _ Hc) as (H1 & H2 & H3 & _).
  cbn [String.eqb startswith truthy]. rewrite H1, H2, H3.
  repeat split.
  destruct (contains "," (String c t)) eqn:E; [reflexivity|].
  rewrite (split_no_comma _ E) in Hs. discriminate.
Qed.

(** X3. A size token of two integers [w,h] is returned as it is, whatever
    the extents of the region: no aspect ratio is kept, and nothing is
    computed from the region. *)
Theorem parse_size_exact tok sw sh w h rw rh :
  split "," tok = [sw; sh] -> py_int sw = Ok w -> py_int sh = Ok h ->
  parse_size tok rw rh = Ok (w, h).
Proof.
  intros Hs Hw Hh.
  destruct (two_fields_shape _ _ _ _ _ Hs Hw Hh)
    as (Hm & Hc & Hp & Hcomma & Tw & Th).
  rewrite parse_size_eq. unfold parse_size_step. rewrite Hm, Hc.
  unfold parse_size_forms. rewrite Hp. unfold parse_size_comma.
  rewrite Hcomma, Hs, Tw, Th. cbn [andb negb]. rewrite Hw, Hh. reflexivity.
Qed.

Lemma parse_size_exact_witness :
  parse_size "640,-7" 200 100 = Ok (640, -7).
Proof.
  apply (parse_size_exact "640,-7" "640" "-7"); reflexivity.
Defined.

Lemma isdigit_no_digit s :
  all_chars (fun c => negb (char_isdigit c)) s = true -> isdigit s = false.
Proof.
  destruct s as [|c s]; [reflexivity|]. cbn [all_chars]. intros H.
  apply andb_true_iff in H. destruct H as [H _].
  unfold isdigit. cbn [truthy all_chars andb].
  apply negb_true_iff in H. now rewrite H.
Qed.

Lemma parse_size_number_no_digit s rw rh :
  all_chars (fun c => negb (char_isdigit c)) s = true ->
  parse_size_number s rw rh = Ok (rw, rh).
Proof.
  intros H. unfold parse_size_number. now rewrite (isdigit_no_digit _ H).
Qed.

Lemma parse_size_bestfit_no_comma s rw rh :
  contains "," s = false -> parse_size_bestfit s rw rh = Ok None.
Proof. intros H. unfold parse_size_bestfit. now rewrite H. Qed.

Lemma parse_size_lenient_eq tok rw rh :
  contains "," tok = false ->
  contains "pct:" tok = false ->
  all_chars (fun c => negb (char_isdigit c)) tok = true ->
  parse_size tok rw rh = Ok (rw, rh).
Proof.
  induction tok as [|c r IH]; intros Hcomma Hpct Hdig.
  - rewrite parse_size_eq. reflexivity.
  - rewrite parse_size_eq.
    destruct (parse_size_step (String c r) rw rh) as [res|rest] eqn:E.
    + revert E. unfold parse_size_step.
      destruct (String c r =? "max")%string; [now intros [= <-]|].
      destruct (startswith "^" (String c r)); [discriminate|].
      intros [= <-]. unfold parse_size_forms, parse_size_comma.
      rewrite (contains_startswith _ _ Hpct), Hcomma. cbn [bind].
      pose proof (contains_tail _ _ _ Hcomma) as Hcomma'.
      assert (all_chars (fun c => negb (char_isdigit c)) r = true) as Hdig'
        by (cbn [all_chars] in Hdig; apply andb_true_iff in Hdig; apply Hdig).
      destruct (startswith "!" (String c r)).
      * change (slice_from 1 (String c r)) with r.
        rewrite (parse_size_bestfit_no_comma _ _ _ Hcomma'). cbn [bind].
        now apply parse_size_number_no_digit.
      * now apply parse_size_number_no_digit.
    + apply parse_size_step_recurse in E. destruct E as [[= -> ->] _].
      apply IH.
      * now apply contains_tail in Hcomma.
      * now apply contains_tail in Hpct.
      * cbn [all_chars] in Hdig. apply andb_true_iff in Hdig. apply Hdig.
Qed.

(** X4. The leniency of the size grammar: a token without a comma, without
    [pct:] and without a digit is not refused for its form. When the
    interpreter has room for one call more than the token has leading [^],
    the token gives the extents of the region unchanged, with or without
    [!] in front. *)
Theorem parse_size_lenient (room : nat) tok rw rh :
  (leading_carets tok < room)%nat ->
  contains "," tok = false ->
  contains "pct:" tok = false ->
  all_chars (fun c => negb (char_isdigit c)) tok = true ->
  parse_size_within room tok rw rh = Ok (rw, rh).
Proof.
  intros Hroom Hcomma Hpct Hdig.
  rewrite (parse_size_within_enough _ _ _ _ Hroom).
  now apply parse_size_lenient_eq.
Qed.

Lemma parse_size_lenient_witness :
  parse_size_within 2 "^!full" 200 100 = Ok (200, 100).
Proof.
  apply (parse_size_lenient 2 "^!full" 200 100);
    [cbn; lia | reflexivity | reflexivity | reflexivity].
Defined.

(** ** Division of integers in double precision *)

Lemma digits2_pos_bounds p :
  2 ^ (Z.pos (digits2_pos p) - 1) <= Z.pos p < 2 ^ Z.pos (digits2_pos p).
Proof.
  induction p as [p IH|p IH|]; cbn [digits2_pos].
  - rewrite Pos2Z.inj_succ, Z.pow_succ_r by lia.
    replace (Z.succ (Z.pos (digits2_pos p)) - 1)
      with (Z.succ (Z.pos (digits2_pos p) - 1)) by lia.
    rewrite Z.pow_succ_r by lia. lia.
  - rewrite Pos2Z.inj_succ, Z.pow_succ_r by lia.
    replace (Z.succ (Z.pos (digits2_pos p)) - 1)
      with (Z.succ (Z.pos (digits2_pos p) - 1)) by lia.
    rewrite Z.pow_succ_r by lia. lia.
  - cbn. lia.
Qed.

Lemma Zdigits2_bounds z :
  0 < z -> 0 < Zdigits2 z /\ 2 ^ (Zdigits2 z - 1) <= z < 2 ^ Zdigits2 z.
Proof.
  destruct z as [|p|p]; try lia. intros _. cbn [Zdigits2].
  split; [lia | apply digits2_pos_bounds].
Qed.

Lemma Zdigits2_between z a :
  0 <= a -> 2 ^ a <= z < 2 ^ (a + 1) -> Zdigits2 z = a + 1.
Proof.
  intros Ha [Hl Hu]. assert (0 < z) as Hz by (pose proof (Z.pow_pos_nonneg 2 a); lia).
  destruct (Zdigits2_bounds z Hz) as (Hd & Hdl & Hdu).
  assert (a < Zdigits2 z) by (apply (Z.pow_lt_mono_r_iff 2); lia).
  assert (Zdigits2 z - 1 < a + 1) by (apply (Z.pow_lt_mono_r_iff 2); lia).
  lia.
Qed.

Lemma Zdigits2_le z a :
  0 < z -> 0 <= a -> z < 2 ^ a -> Zdigits2 z <= a.
Proof.
  intros Hz Ha Hu. destruct (Zdigits2_bounds z Hz) as (Hd & Hdl & _).
  assert (Zdigits2 z - 1 < a) by (apply (Z.pow_lt_mono_r_iff 2); lia). lia.
Qed.

Lemma fexp_small x : -1021 <= x -> fexp prec emax x = x - 53.
Proof. intros H. unfold fexp, emin, prec, emax. lia. Qed.

Lemma int_of_float_finite p e :
  e <= 0 -> int_of_float (S754_finite false p e) = Ok (Z.pos p / 2 ^ (- e)).
Proof.
  intros He. cbn [int_of_float cond_Zopp]. f_equal.
  destruct e as [|q|q]; try lia.
  - cbn. now rewrite Z.div_1_r.
  - reflexivity.
Qed.

Lemma finish_trunc m e :
  2 ^ 52 <= m <= 2 ^ 53 -> -1000 <= e <= 0 ->
  int_of_float (finish m e) = Ok (m / 2 ^ (- e)).
Proof.
  intros Hm He. unfold finish, shr_fexp.
  destruct (Z.eq_dec m (2 ^ 53)) as [->|Hne].
  - change (Zdigits2 (2 ^ 53)) with 54.
    rewrite fexp_small by lia.
    replace (54 + e - 53 - e) with 1 by lia.
    cbn [shr shr_record_of_loc iter_pos]. 
    change (shr_m (shr_1 {| shr_m := 2 ^ 53; shr_r := false; shr_s := false |}))
      with (2 ^ 52).
    change (2 ^ 52) with (Z.pos 4503599627370496) at 1.
    cbv iota.
    assert ((e + 1 <=? emax - prec) = true) as -> by (apply Z.leb_le; unfold emax, prec; lia).
    destruct (Z.eq_dec e 0) as [->|He0].
    + reflexivity.
    + rewrite int_of_float_finite by lia. f_equal.
      replace (- e) with (Z.succ (- (e + 1))) by lia.
      rewrite Z.pow_succ_r by lia.
      change (2 ^ 53) with (2 * Z.pos 4503599627370496).
      rewrite Z.div_mul_cancel_l; [reflexivity | | lia].
      apply Z.pow_nonzero; lia.
  - assert (Zdigits2 m = 53) as Hd by (apply (Zdigits2_between m 52); lia).
    rewrite Hd, fexp_small by lia.
    replace (53 + e - 53 - e) with 0 by lia.
    cbn [shr shr_record_of_loc shr_m].
    destruct m as [|p|p]; try lia.
    assert ((e <=? emax - prec) = true) as -> by (apply Z.leb_le; unfold emax, prec; lia).
    now apply int_of_float_finite.
Qed.

Lemma div_eucl_div_mod a b : Z.div_eucl a b = (a / b, a mod b).
Proof. unfold Z.div, Z.modulo. now destruct (Z.div_eucl a b). Qed.

Lemma div_core n c :
  0 < n < 2 ^ 53 -> 0 < c < 2 ^ 53 ->
  let s := 53 + Zdigits2 c - Zdigits2 n in
  0 < s <= 106 /\ c < 2 ^ s
  /\ SFdiv_core_binary prec emax n 0 c 0
     = (n * 2 ^ s / c, - s, new_location c (n * 2 ^ s mod c))
  /\ 2 ^ 52 <= n * 2 ^ s / c < 2 ^ 54.
Proof.
  intros Hn Hc s.
  destruct (Zdigits2_bounds n (proj1 Hn)) as (Hd1 & Hl1 & Hu1).
  destruct (Zdigits2_bounds c (proj1 Hc)) as (Hd2 & Hl2 & Hu2).
  pose proof (Zdigits2_le n 53 (proj1 Hn) ltac:(lia) (proj2 Hn)) as Hd1'.
  pose proof (Zdigits2_le c 53 (proj1 Hc) ltac:(lia) (proj2 Hc)) as Hd2'.
  assert (0 < s <= 106) as Hs by (subst s; lia).
  assert (c < 2 ^ s) as Hcs.
  { eapply Z.lt_le_trans; [exact Hu2|].
    apply Z.pow_le_mono_r; subst s; lia. }
  split; [exact Hs|]. split; [exact Hcs|]. split.
  - unfold SFdiv_core_binary. rewrite fexp_small by lia.
    replace (Z.min (Zdigits2 n + 0 - (Zdigits2 c + 0) - 53) (0 - 0))
      with (- s) by (subst s; lia).
    replace (0 - 0 - - s) with s by lia.
    destruct s as [|p|p] eqn:Es; try lia.
    rewrite Z.shiftl_mul_pow2 by lia.
    now rewrite div_eucl_div_mod.
  - assert (2 ^ (Zdigits2 n - 1) * 2 ^ s = 2 ^ 52 * 2 ^ Zdigits2 c) as E1.
    { rewrite <- !Z.pow_add_r by lia. f_equal. subst s. lia. }
    assert (2 ^ Zdigits2 n * 2 ^ s = 2 ^ 54 * 2 ^ (Zdigits2 c - 1)) as E2.
    { rewrite <- !Z.pow_add_r by lia. f_equal. subst s. lia. }
    assert (0 < 2 ^ s) by (apply Z.pow_pos_nonneg; lia).
    split.
    + apply Z.div_le_lower_bound; [lia|]. nia.
    + apply Z.div_lt_upper_bound; [lia|]. nia.
Qed.

Lemma div_round_up n c B q :
  0 <= n -> 0 < c < B -> q = n * B / c -> (q + 1) / B = n / c.
Proof.
  intros Hn Hc ->.
  pose proof (Z.mul_div_le (n * B) c ltac:(lia)) as H1.
  pose proof (Z.mul_succ_div_gt (n * B) c ltac:(lia)) as H2.
  pose proof (Z.mul_div_le n c ltac:(lia)) as H3.
  pose proof (Z.mul_succ_div_gt n c ltac:(lia)) as H4.
  set (q := n * B / c) in *. set (k := n / c) in *.
  symmetry. apply (Z.div_unique_pos _ _ _ (q + 1 - B * k)); [|lia].
  split; nia.
Qed.

Lemma div_round_down n c B :
  0 < c -> 0 < B -> n * B / c / B = n / c.
Proof.
  intros Hc HB. rewrite Z.div_div by lia.
  rewrite Z.div_mul_cancel_r by lia. reflexivity.
Qed.

Lemma rne_cases m l :
  round_nearest_even m l = m \/ round_nearest_even m l = m + 1.
Proof.
  destruct l as [|[]]; cbn [round_nearest_even]; auto.
  destruct (Z.even m); auto.
Qed.

Lemma loc_record_loc m l :
  shr_m (shr_record_of_loc m l) = m
  /\ loc_of_shr_record (shr_record_of_loc m l) = l.
Proof. destruct l as [|[]]; split; reflexivity. Qed.

Lemma bra_53 q e l :
  2 ^ 52 <= q < 2 ^ 53 -> -1000 <= e <= 0 ->
  binary_round_aux prec emax false q e l = finish (round_nearest_even q l) e.
Proof.
  intros Hq He. unfold binary_round_aux, finish. unfold shr_fexp at 1.
  assert (Zdigits2 q = 53) as -> by (apply (Zdigits2_between q 52); lia).
  rewrite fexp_small by lia. replace (53 + e - 53 - e) with 0 by lia.
  cbn [shr].
  destruct (loc_record_loc q l) as [-> ->]. reflexivity.
Qed.

Lemma shr_1_round q l :
  0 < q ->
  let mrs := shr_1 (shr_record_of_loc q l) in
  shr_m mrs = q / 2
  /\ (round_nearest_even (shr_m mrs) (loc_of_shr_record mrs) = q / 2
      \/ (round_nearest_even (shr_m mrs) (loc_of_shr_record mrs) = q / 2 + 1
          /\ Z.odd q = true)).
Proof.
  intros Hq. destruct q as [|p|p]; try lia.
  destruct p as [p|p|].
  - assert (Z.pos p~1 / 2 = Z.pos p) as ->
      by (symmetry; apply (Z.div_unique _ _ _ 1); lia).
    destruct l as [|[]]; cbn; split; auto; destruct p; auto.
  - assert (Z.pos p~0 / 2 = Z.pos p) as ->
      by (symmetry; apply (Z.div_unique _ _ _ 0); lia).
    destruct l as [|[]]; cbn; split; auto.
  - destruct l as [|[]]; cbn; split; auto.
Qed.

Lemma bra_54 q e l :
  2 ^ 53 <= q < 2 ^ 54 -> -1000 <= e <= -1 ->
  exists m,
    binary_round_aux prec emax false q e l = finish m (e + 1)
    /\ (m = q / 2 \/ (m = q / 2 + 1 /\ Z.odd q = true)).
Proof.
  intros Hq He. unfold binary_round_aux, finish. unfold shr_fexp at 1.
  assert (Zdigits2 q = 54) as -> by (apply (Zdigits2_between q 53); lia).
  rewrite fexp_small by lia. replace (54 + e - 53 - e) with 1 by lia.
  cbn [shr iter_pos].
  destruct (shr_1_round q l ltac:(lia)) as [Hm Hr].
  eexists. split; [reflexivity|]. exact Hr.
Qed.

Lemma odd_half_succ q : Z.odd q = true -> q / 2 + 1 = (q + 1) / 2.
Proof.
  intros H. rewrite (Zodd_div2 q) at 2 by (now apply Zodd_bool_iff).
  rewrite <- Z.div2_div.
  replace (2 * Z.div2 q + 1 + 1) with ((Z.div2 q + 1) * 2) by lia.
  now rewrite Z.div_mul by lia.
Qed.

(** Below 2^53, the truncated quotient of two integers is their floor
    division. *)
Lemma round_ratio_trunc n c :
  0 < n < 2 ^ 53 -> 0 < c < 2 ^ 53 ->
  int_of_float (round_ratio false n c) = Ok (n / c).
Proof.
  intros Hn Hc. destruct (div_core n c Hn Hc) as (Hs & Hcs & Hcore & Hq).
  cbv zeta in Hs, Hcs, Hcore, Hq.
  set (s := 53 + Zdigits2 c - Zdigits2 n) in *.
  unfold round_ratio. rewrite Hcore.
  set (q := n * 2 ^ s / c) in *.
  set (l := new_location c (n * 2 ^ s mod c)).
  assert (0 < 2 ^ s) as HB by (apply Z.pow_pos_nonneg; lia).
  assert (2 ^ s = 2 * 2 ^ (s - 1)) as Hpow
    by (rewrite <- Z.pow_succ_r by lia; f_equal; lia).
  assert (0 < 2 ^ (s - 1)) as HB' by (apply Z.pow_pos_nonneg; lia).
  destruct (Z_lt_le_dec q (2 ^ 53)) as [Hlt|Hge].
  - rewrite bra_53 by lia.
    destruct (rne_cases q l) as [-> | ->];
      rewrite finish_trunc by lia; replace (- - s) with s by lia; f_equal.
    + subst q. apply div_round_down; lia.
    + apply (div_round_up n c (2 ^ s) q); [lia | lia | reflexivity].
  - destruct (bra_54 q (- s) l ltac:(lia) ltac:(lia)) as (m & -> & Hm).
    assert (q / 2 < 2 ^ 53) by (apply Z.div_lt_upper_bound; lia).
    assert (2 ^ 52 <= q / 2) by (apply Z.div_le_lower_bound; lia).
    rewrite finish_trunc by (destruct Hm as [->|[-> _]]; lia).
    replace (- (- s + 1)) with (s - 1) by lia. f_equal.
    destruct Hm as [->|[-> Hodd]].
    + rewrite Z.div_div by lia. rewrite <- Hpow.
      subst q. apply div_round_down; lia.
    + rewrite (odd_half_succ _ Hodd), Z.div_div by lia. rewrite <- Hpow.
      apply (div_round_up n c (2 ^ s) q); [lia | lia | reflexivity].
Qed.

(** [int(a * b / c)] is the floor division [a * b // c] as long as the
    product and the divisor are below 2^53. *)
Lemma int_muldiv_floor a b c :
  0 <= a * b < 2 ^ 53 -> 0 < c < 2 ^ 53 ->
  int_muldiv a b c = Ok (a * b / c).
Proof.
  intros Hn Hc. unfold int_muldiv, int_truediv.
  assert ((c =? 0) = false) as -> by (apply Z.eqb_neq; lia).
  destruct (Z.eqb_spec (a * b) 0) as [->|Hne]; [reflexivity|].
  assert ((a * b <? 0) = false) as -> by (apply Z.ltb_ge; lia).
  assert ((c <? 0) = false) as -> by (apply Z.ltb_ge; lia).
  cbn [xorb]. rewrite !Z.abs_eq by lia.
  pose proof (round_ratio_trunc (a * b) c ltac:(lia) Hc) as H.
  destruct (round_ratio false (a * b) c); cbn [bind]; exact H.
Qed.

(** ** The forms of [parse_size] that keep the aspect ratio *)

Lemma first_field_shape tok sw rest w :
  split "," tok = sw :: rest -> rest <> [] -> py_int sw = Ok w ->
  (tok =? "max")%string = false /\ startswith "^" tok = false
  /\ startswith "pct:" tok = false /\ contains "," tok = true
  /\ truthy sw = true.
Proof.
  intros Hs Hr Hw.
  destruct (py_int_start _ _ Hw) as (c & r & -> & Hc).
  destruct (split_head_char _ _ _ _ Hs) as (t & -> & _).
  destruct (int_start_not_keyword _ Hc) as (H1 & H2 & H3 & _).
  cbn [String.eqb startswith truthy]. rewrite H1, H2, H3.
  repeat split.
  destruct (contains "," (String c t)) eqn:E; [reflexivity|].
  rewrite (split_no_comma _ E) in Hs. now injection Hs as _ <-.
Qed.

Lemma split_head_empty tok t :
  split "," tok = "" :: t -> t <> [] -> exists r, tok = String "," r.
Proof.
  destruct tok as [|a tok]; cbn [split].
  - intros [= <-]. contradiction.
  - destruct (Ascii.eqb_spec a ",") as [->|]; [eauto|].
    destruct (split "," tok); discriminate.
Qed.

(** X5. A size token [w,] gives the width [w] and the height that keeps the
    aspect ratio, [max(1, floor(region_height * w / region_width))]: for
    products below 2^53 the division in double precision followed by
    [int()] is the exact integer quotient. *)
Theorem parse_size_width_only tok sw w rw rh :
  split "," tok = [sw; ""] -> py_int sw = Ok w ->
  0 <= rh * w < 2 ^ 53 -> 0 < rw < 2 ^ 53 ->
  parse_size tok rw rh = Ok (w, Z.max 1 (rh * w / rw)).
Proof.
  intros Hs Hw Hn Hc.
  destruct (first_field_shape _ _ _ _ Hs ltac:(discriminate) Hw)
    as (Hm & Hcar & Hp & Hcomma & Tw).
  rewrite parse_size_eq. unfold parse_size_step. rewrite Hm, Hcar.
  unfold parse_size_forms. rewrite Hp. unfold parse_size_comma.
  rewrite Hcomma, Hs, Tw. cbn [truthy andb negb]. rewrite Hw. cbn [bind].
  rewrite (int_muldiv_floor _ _ _ Hn Hc). reflexivity.
Qed.

Lemma parse_size_width_only_witness :
  parse_size "150," 200 100 = Ok (150, 75).
Proof.
  apply (parse_size_width_only "150," "150" 150 200 100);
    [reflexivity | reflexivity | lia | lia].
Defined.

(** X6. A size token [,h] gives the height [h] and the width that keeps the
    aspect ratio, [max(1, floor(region_width * h / region_height))], the
    quotient being exact for products below 2^53. *)
Theorem parse_size_height_only tok sh h rw rh :
  split "," tok = [""; sh] -> py_int sh = Ok h ->
  0 <= rw * h < 2 ^ 53 -> 0 < rh < 2 ^ 53 ->
  parse_size tok rw rh = Ok (Z.max 1 (rw * h / rh), h).
Proof.
  intros Hs Hh Hn Hc.
  destruct (split_head_empty _ _ Hs ltac:(discriminate)) as (r & ->).
  destruct (py_int_start _ _ Hh) as (c & r' & -> & _).
  rewrite parse_size_eq. unfold parse_size_step.
  change (String "," r =? "max")%string with false.
  change (startswith "^" (String "," r)) with false. cbv iota.
  unfold parse_size_forms.
  change (startswith "pct:" (String "," r)) with false. cbv iota.
  unfold parse_size_comma.
  change (contains "," (String "," r)) with true. cbv iota.
  rewrite Hs. cbn [truthy andb negb]. rewrite Hh. cbn [bind].
  rewrite (int_muldiv_floor _ _ _ Hn Hc). reflexivity.
Qed.

Lemma parse_size_height_only_witness :
  parse_size ",75" 200 100 = Ok (150, 75).
Proof.
  apply (parse_size_height_only ",75" "75" 75 200 100);
    [reflexivity | reflexivity | lia | lia].
Defined.

Lemma char_isdigit_not_comma c :
  char_isdigit c = true -> Ascii.eqb "," c = false.
Proof.
  destruct c as [[] [] [] [] [] [] [] []]; intros H;
    try discriminate H; reflexivity.
Qed.

Lemma all_digits_no_comma s :
  all_chars char_isdigit s = true -> contains "," s = false.
Proof.
  induction s as [|c s IH]; [reflexivity|].
  cbn [all_chars contains startswith]. intros H.
  apply andb_true_iff in H. destruct H as [Hc Hs].
  now rewrite (char_isdigit_not_comma _ Hc), (IH Hs).
Qed.

Lemma parse_size_number_floor tok n rw rh :
  isdigit tok = true -> py_int tok = Ok n ->
  0 <= rh * n < 2 ^ 53 -> 0 < rw < 2 ^ 53 ->
  parse_size_number tok rw rh = Ok (n, Z.max 1 (rh * n / rw)).
Proof.
  intros Hd Hi Hn Hc. unfold parse_size_number. rewrite Hd, Hi. cbn [bind].
  now rewrite (int_muldiv_floor _ _ _ Hn Hc).
Qed.

(** X7. A size token made of digits that [int()] reads as [n] is a width:
    it gives [(n, max(1, floor(region_height * n / region_width)))], and a
    [!] in front of it changes nothing. *)
Theorem parse_size_bare_number tok n rw rh :
  isdigit tok = true -> py_int tok = Ok n ->
  0 <= rh * n < 2 ^ 53 -> 0 < rw < 2 ^ 53 ->
  parse_size tok rw rh = Ok (n, Z.max 1 (rh * n / rw))
  /\ parse_size (String "!" tok) rw rh = parse_size tok rw rh.
Proof.
  intros Hd Hi Hn Hc.
  pose proof (parse_size_number_floor _ _ _ _ Hd Hi Hn Hc) as Hnum.
  assert (contains "," tok = false) as Hcomma.
  { unfold isdigit in Hd. apply andb_true_iff in Hd.
    now apply all_digits_no_comma. }
  assert (parse_size tok rw rh = Ok (n, Z.max 1 (rh * n / rw))) as E.
  { destruct (py_int_start _ _ Hi) as (c & r & -> & Hs).
    destruct (int_start_not_keyword _ Hs) as (H1 & H2 & H3 & H4 & _).
    rewrite parse_size_eq. unfold parse_size_step.
    cbn [String.eqb startswith]. rewrite H1, H2. cbn [andb].
    unfold parse_size_forms. cbn [startswith]. rewrite H3, H4. cbn [andb].
    unfold parse_size_comma. rewrite Hcomma. cbn [bind]. exact Hnum. }
  split; [exact E|]. rewrite E.
  rewrite parse_size_eq. unfold parse_size_step.
  change (String "!" tok =? "max")%string with false.
  change (startswith "^" (String "!" tok)) with false. cbv iota.
  unfold parse_size_forms.
  change (startswith "pct:" (String "!" tok)) with false. cbv iota.
  unfold parse_size_comma.
  replace (contains "," (String "!" tok)) with false
    by (cbn [contains startswith]; now rewrite Hcomma).
  cbn [bind]. change (startswith "!" (String "!" tok)) with true. cbv iota.
  change (slice_from 1 (String "!" tok)) with tok.
  unfold parse_size_bestfit. rewrite Hcomma. cbn [bind]. exact Hnum.
Qed.

Lemma parse_size_bare_number_witness :
  parse_size "150" 200 100 = Ok (150, 75)
  /\ parse_size "!150" 200 100 = parse_size "150" 200 100.
Proof.
  apply (parse_size_bare_number "150" 150 200 100);
    [reflexivity | reflexivity | lia | lia].
Defined.


(** ** The region grammar *)

Lemma split_length_cons c s :
  Ascii.eqb c "," = false ->
  List.length (split "," (String c s)) = List.length (split "," s).
Proof.
  intros H. cbn [split]. rewrite H.
  destruct (split "," s) eqn:E; [now apply split_not_nil in E | reflexivity].
Qed.

Lemma pct_prefix_fields tok :
  startswith "pct:" tok = true ->
  List.length (split "," (slice_from 4 tok)) = List.length (split "," tok).
Proof.
  destruct tok as [|c1 [|c2 [|c3 [|c4 r]]]]; try discriminate.
  - cbn [startswith]. rewrite !andb_false_r. discriminate.
  - cbn [startswith]. rewrite !andb_false_r. discriminate.
  - cbn [startswith]. rewrite !andb_false_r. discriminate.
  - cbn [startswith]. rewrite andb_true_r. intros H.
    apply andb_true_iff in H. destruct H as [H1 H].
    apply andb_true_iff in H. destruct H as [H2 H].
    apply andb_true_iff in H. destruct H as [H3 H4].
    apply Ascii.eqb_eq in H1, H2, H3, H4. subst.
    cbn [slice_from]. now rewrite !split_length_cons.
Qed.

Lemma not_four_fields {A : Type} (l : list string) (f : string -> string -> string -> string -> A) (d : A) :
  List.length l <> 4%nat ->
  match l with
  | [a; b; c; e] => f a b c e
  | _ => d
  end = d.
Proof.
  destruct l as [|a [|b [|c [|e [|g l]]]]]; cbn; intros H;
    try reflexivity. now contradiction H.
Qed.

(** X8. The leniency of the region grammar: a token other than [square]
    whose number of comma-separated fields is not four is never refused and
    stands for the full source, with or without [pct:] in front. *)
Theorem parse_region_lenient tok W H :
  (tok =? "square")%string = false ->
  List.length (split "," tok) <> 4%nat ->
  parse_region tok W H = Ok (0, 0, W, H).
Proof.
  intros Hsq Hlen. unfold parse_region.
  destruct (tok =? "full")%string; [reflexivity|]. rewrite Hsq.
  assert (parse_region_pct tok W H = Ok None) as ->.
  { unfold parse_region_pct.
    destruct (startswith "pct:" tok) eqn:Hp; [|reflexivity].
    apply not_four_fields. now rewrite (pct_prefix_fields _ Hp). }
  cbn [bind]. unfold parse_region_abs. now apply not_four_fields.
Qed.

Lemma parse_region_lenient_witness :
  parse_region "pct:10,20,oops" 400 200 = Ok (0, 0, 400, 200).
Proof. apply parse_region_lenient; [reflexivity | cbn; lia]. Defined.

(** X9. The absolute region of a token with extents that are not negative
    is a rectangle inside the source, no larger than asked for; a rectangle
    that already lies inside the source is returned as it is. *)
Theorem parse_region_absolute_inside tok sx sy sw sh x y w h W H :
  split "," tok = [sx; sy; sw; sh] ->
  py_int sx = Ok x -> py_int sy = Ok y -> py_int sw = Ok w -> py_int sh = Ok h ->
  startswith "pct:" tok = false ->
  0 <= W -> 0 <= H -> 0 <= w -> 0 <= h ->
  exists x' y' w' h',
    parse_region tok W H = Ok (x', y', w', h')
    /\ 0 <= x' /\ 0 <= w' <= w /\ x' + w' <= W
    /\ 0 <= y' /\ 0 <= h' <= h /\ y' + h' <= H
    /\ (0 <= x -> x + w <= W -> x' = x /\ w' = w)
    /\ (0 <= y -> y + h <= H -> y' = y /\ h' = h).
Proof.
  intros Hs Hx Hy Hw Hh Hp HW HH Hw0 Hh0.
  do 4 eexists. split.
  - apply (parse_region_abs_four _ _ _ _ _ _ _ _ _ W H Hs Hx Hy Hw Hh Hp).
  - repeat split; lia.
Qed.

Lemma parse_region_absolute_inside_witness :
  exists x' y' w' h',
    parse_region "300,50,200,100" 400 200 = Ok (x', y', w', h')
    /\ 0 <= x' /\ 0 <= w' <= 200 /\ x' + w' <= 400
    /\ 0 <= y' /\ 0 <= h' <= 100 /\ y' + h' <= 200
    /\ (0 <= 300 -> 300 + 200 <= 400 -> x' = 300 /\ w' = 200)
    /\ (0 <= 50 -> 50 + 100 <= 200 -> y' = 50 /\ h' = 100).
Proof.
  apply (parse_region_absolute_inside "300,50,200,100" "300" "50" "200" "100");
    [reflexivity .. | | | | ]; lia.
Defined.

(** X10. Clamping is idempotent: the rectangle returned for an absolute
    region, given again as a token, is returned unchanged. *)
Theorem parse_region_absolute_idempotent
  tok sx sy sw sh x y w h tok' sx' sy' sw' sh' x' y' w' h' W H :
  split "," tok = [sx; sy; sw; sh] ->
  py_int sx = Ok x -> py_int sy = Ok y -> py_int sw = Ok w -> py_int sh = Ok h ->
  startswith "pct:" tok = false ->
  parse_region tok W H = Ok (x', y', w', h') ->
  split "," tok' = [sx'; sy'; sw'; sh'] ->
  py_int sx' = Ok x' -> py_int sy' = Ok y' ->
  py_int sw' = Ok w' -> py_int sh' = Ok h' ->
  startswith "pct:" tok' = false ->
  parse_region tok' W H = Ok (x', y', w', h').
Proof.
  intros Hs Hx Hy Hw Hh Hp Hr Hs' Hx' Hy' Hw' Hh' Hp'.
  rewrite (parse_region_abs_four _ _ _ _ _ _ _ _ _ W H Hs Hx Hy Hw Hh Hp) in Hr.
  injection Hr as Ex Ey Ew Eh.
  rewrite (parse_region_abs_four _ _ _ _ _ _ _ _ _ W H Hs' Hx' Hy' Hw' Hh' Hp').
  repeat f_equal; lia.
Qed.

Lemma parse_region_absolute_idempotent_witness :
  parse_region "300,0,100,200" 400 200 = Ok (300, 0, 100, 200).
Proof.
  apply (parse_region_absolute_idempotent
           "300,-5,200,1000" "300" "-5" "200" "1000" 300 (-5) 200 1000
           "300,0,100,200" "300" "0" "100" "200");
    reflexivity.
Defined.


(** ** Cropping *)

Section PipelineProperties.

Context {env : Env}.

(** X11. Whenever the region parser returns a rectangle with positive extents
    inside the source, the crop stage is applied once and yields exactly
    that rectangle: a raster with the parsed height and width whose pixel
    [(i, j)] is the source pixel [(y + i, x + j)]. *)
Theorem crop_stage_inside (image : ndarray) (req : request) x y w h log :
  parse_region (region req) (shape_w image) (shape_h image) = Ok (x, y, w, h) ->
  0 <= x -> 0 < w -> x + w <= shape_w image ->
  0 <= y -> 0 < h -> y + h <= shape_h image ->
  exists cropped,
    crop_stage image req log
    = (Ok cropped, (log ++ [Crop y (y + h) x (x + w)])%list)
    /\ shape2 cropped = (h, w)
    /\ forall i j, at_ cropped i j = at_ image (y + i) (x + j).
Proof.
  intros Hr Hx Hw Hxw Hy Hh Hyh.
  exists (crop image y (y + h) x (x + w)). split; [|split].
  - unfold crop_stage, shape2, mbind, lift, tell, ret. rewrite Hr.
    assert ((w >? 0) = true) as -> by (rewrite Z.gtb_ltb; now apply Z.ltb_lt).
    assert ((h >? 0) = true) as -> by (rewrite Z.gtb_ltb; now apply Z.ltb_lt).
    reflexivity.
  - unfold shape2, crop, adjust_index. cbn [shape_h shape_w].
    assert ((y <? 0) = false) as -> by (apply Z.ltb_ge; lia).
    assert ((y + h <? 0) = false) as -> by (apply Z.ltb_ge; lia).
    assert ((x <? 0) = false) as -> by (apply Z.ltb_ge; lia).
    assert ((x + w <? 0) = false) as -> by (apply Z.ltb_ge; lia).
    f_equal; lia.
  - intros i j. unfold crop, adjust_index. cbn [at_].
    assert ((y <? 0) = false) as -> by (apply Z.ltb_ge; lia).
    assert ((x <? 0) = false) as -> by (apply Z.ltb_ge; lia).
    f_equal; lia.
Qed.

(** X12. On every source with positive extents, the region [square] is
    cropped to a square raster of side [min(width, height)]. *)
Theorem crop_stage_square (image : ndarray) (req : request) :
  region req = "square" ->
  0 < shape_w image -> 0 < shape_h image ->
  exists cropped log,
    crop_stage image req [] = (Ok cropped, log)
    /\ List.length log = 1%nat
    /\ shape2 cropped
       = (Z.min (shape_w image) (shape_h image),
          Z.min (shape_w image) (shape_h image)).
Proof.
  intros Hr HW HH.
  assert (exists x y s,
             parse_region (region req) (shape_w image) (shape_h image)
             = Ok (x, y, s, s)
             /\ s = Z.min (shape_w image) (shape_h image)
             /\ 0 <= x /\ x + s <= shape_w image
             /\ 0 <= y /\ y + s <= shape_h image) as (x & y & s & Hp & Hs & B).
  { rewrite Hr. unfold parse_region.
    change ("square" =? "full")%string with false.
    change ("square" =? "square")%string with true. cbv iota.
    destruct (Z.eqb_spec (shape_w image) (shape_h image)) as [E|E].
    - exists 0, 0, (shape_w image).
      split; [now rewrite <- E | repeat split; lia].
    - destruct (Z.gtb_spec (shape_w image) (shape_h image)).
      + exists ((shape_w image - shape_h image) / 2), 0, (shape_h image).
        assert (0 <= (shape_w image - shape_h image) / 2)
          by (apply Z.div_pos; lia).
        assert (2 * ((shape_w image - shape_h image) / 2)
                <= shape_w image - shape_h image)
          by (apply Z.mul_div_le; lia).
        repeat split; lia.
      + exists 0, ((shape_h image - shape_w image) / 2), (shape_w image).
        assert (0 <= (shape_h image - shape_w image) / 2)
          by (apply Z.div_pos; lia).
        assert (2 * ((shape_h image - shape_w image) / 2)
                <= shape_h image - shape_w image)
          by (apply Z.mul_div_le; lia).
        repeat split; lia. }
  destruct (crop_stage_inside image req x y s s [] Hp) as (c & Hc & Hsh & _);
    try lia.
  exists c, [Crop y (y + s) x (x + s)]. rewrite Hc, Hsh, Hs.
  repeat split.
Qed.

End PipelineProperties.

Lemma crop_stage_inside_witness :
  exists cropped,
    crop_stage sample_image (sample_request "1,0,2,2" "max" "0") []
    = (Ok cropped, [Crop 0 2 1 3])
    /\ shape2 cropped = (2, 2)
    /\ forall i j, at_ cropped i j = at_ sample_image (0 + i) (1 + j).
Proof.
  apply (crop_stage_inside sample_image (sample_request "1,0,2,2" "max" "0")
           1 0 2 2 []); try reflexivity; cbn; lia.
Defined.

Lemma crop_stage_square_witness :
  exists cropped log,
    crop_stage sample_image (sample_request "square" "max" "0") []
    = (Ok cropped, log)
    /\ List.length log = 1%nat
    /\ shape2 cropped = (Z.min 4 2, Z.min 4 2).
Proof.
  apply (crop_stage_square sample_image (sample_request "square" "max" "0"));
    reflexivity.
Defined.


(** ** The file of an identifier *)

Lemma contains_char_append ch a b :
  contains (String ch EmptyString) (a ++ b)
  = contains (String ch EmptyString) a || contains (String ch EmptyString) b.
Proof.
  induction a as [|c a IH].
  - cbn [append contains startswith orb]. destruct b; reflexivity.
  - cbn [append contains startswith]. rewrite IH, orb_assoc. reflexivity.
Qed.

Lemma startswith_append a b : startswith a (a ++ b) = true.
Proof.
  induction a as [|c a IH]; [reflexivity|].
  cbn [append startswith]. now rewrite Ascii.eqb_refl, IH.
Qed.

Lemma startswith_refl a : startswith a a = true.
Proof.
  induction a as [|c a IH]; [reflexivity|].
  cbn [startswith]. now rewrite Ascii.eqb_refl, IH.
Qed.

Lemma slice_from_append a b :
  slice_from (String.length a) (a ++ b) = b.
Proof. induction a as [|c a IH]; [now destruct b|exact IH]. Qed.

Lemma length_append a b :
  String.length (a ++ b) = (String.length a + String.length b)%nat.
Proof. induction a as [|c a IH]; [reflexivity|]. cbn. now rewrite IH. Qed.

Lemma endswith_append a suf : endswith suf (a ++ suf) = true.
Proof.
  unfold endswith. rewrite length_append.
  replace (String.length a + String.length suf - String.length suf)%nat
    with (String.length a) by lia.
  rewrite slice_from_append, String.eqb_refl, andb_true_r.
  apply Nat.leb_le. lia.
Qed.

Lemma accepted_formats_no_separator ext :
  In ext accepted_formats ->
  contains "/" ext = false /\ contains "\" ext = false.
Proof.
  intros Hin. repeat (destruct Hin as [<-|Hin]; [split; reflexivity|]).
  destruct Hin.
Qed.

Section FileProperties.

Context {env : Env}.

Lemma first_available_in identifier exts p :
  first_available identifier exts = Ok (Some p) ->
  exists ext, In ext exts /\ p = PathJoin image_dir (identifier ++ ext)
              /\ path_exists p = Ok true.
Proof.
  intros H. apply first_available_some in H.
  destruct H as (l1 & ext & l2 & -> & -> & Hp & _).
  exists ext. repeat split; auto. apply in_or_app. right. now left.
Qed.

(** X13. Whatever [find_image_file] returns is a candidate that a probe
    answered to exist: the join of the image directory with a name that is
    the identifier itself or the identifier followed by an accepted
    extension. So the name starts with the identifier, ends with an accepted
    extension, and holds neither [/] nor [\]. *)
Theorem find_image_file_sound (identifier : string) (p : Path) :
  find_image_file identifier = Ok (Some p) ->
  path_exists p = Ok true
  /\ exists name,
      p = PathJoin image_dir name
      /\ (name = identifier
          \/ exists ext, In ext accepted_formats /\ name = identifier ++ ext)
      /\ (exists ext, In ext accepted_formats /\ endswith ext name = true)
      /\ startswith identifier name = true
      /\ contains "/" name = false
      /\ contains "\" name = false.
Proof.
  unfold find_image_file. cbn [existsb path_delimiters].
  destruct (contains ".." identifier); [discriminate|].
  destruct (contains "/" identifier) eqn:Hs; [discriminate|].
  destruct (contains "\" identifier) eqn:Hb; [discriminate|].
  cbn [orb].
  assert (forall p,
             first_available identifier accepted_formats = Ok (Some p) ->
             path_exists p = Ok true
             /\ exists name,
                 p = PathJoin image_dir name
                 /\ (name = identifier
                     \/ exists ext,
                         In ext accepted_formats /\ name = identifier ++ ext)
                 /\ (exists ext,
                        In ext accepted_formats /\ endswith ext name = true)
                 /\ startswith identifier name = true
                 /\ contains "/" name = false
                 /\ contains "\" name = false) as Hloop.
  { intros q H. apply first_available_in in H.
    destruct H as (ext & Hin & -> & Hp). split; [exact Hp|].
    exists (identifier ++ ext).
    destruct (accepted_formats_no_separator _ Hin) as [H1 H2].
    rewrite !contains_char_append, Hs, Hb, H1, H2.
    split; [reflexivity|]. split; [right; eauto|].
    split; [exists ext; split; [exact Hin | apply endswith_append]|].
    repeat split. apply startswith_append. }
  destruct (existsb (fun ext => endswith ext identifier) accepted_formats)
    eqn:E.
  - destruct (path_exists (PathJoin image_dir identifier)) as [[|]|x] eqn:Hp;
      cbn [bind]; [|apply Hloop|discriminate].
    intros [= <-]. split; [exact Hp|]. exists identifier.
    apply existsb_exists in E. destruct E as (ext & Hin & He).
    split; [reflexivity|]. split; [now left|].
    split; [exists ext; split; assumption|].
    repeat split; auto using startswith_refl.
  - cbn [bind]. apply Hloop.
Qed.

End FileProperties.

Lemma find_image_file_sound_witness :
  path_exists (Env := sample_env) (PathJoin "/testimages/" "page1.jpg")
  = Ok true
  /\ exists name,
      PathJoin "/testimages/" "page1.jpg"
      = PathJoin (image_dir (Env := sample_env)) name
      /\ (name = "page1"
          \/ exists ext, In ext accepted_formats /\ name = "page1" ++ ext)
      /\ (exists ext, In ext accepted_formats /\ endswith ext name = true)
      /\ startswith "page1" name = true
      /\ contains "/" name = false
      /\ contains "\" name = false.
Proof.
  apply (find_image_file_sound (env := sample_env) "page1"). reflexivity.
Defined.

(** ** The pipeline *)

Lemma parse_size_max rw rh : parse_size "max" rw rh = Ok (rw, rh).
Proof. rewrite parse_size_eq. reflexivity. Qed.

Lemma adds_ret {A : Type} (P : list stage -> Prop) (a : A) :
  P [] -> adds P (ret a).
Proof. intros H log. exists []. cbn. now rewrite app_nil_r. Qed.

Lemma adds_lift {A : Type} (P : list stage -> Prop) (r : result A) :
  P [] -> adds P (lift r).
Proof. intros H log. exists []. cbn. now rewrite app_nil_r. Qed.

Lemma adds_tell (P : list stage -> Prop) (s : stage) :
  P [s] -> adds P (tell s).
Proof. intros H log. exists [s]. now split. Qed.

Lemma adds_mbind {A B : Type} (P Q R : list stage -> Prop)
  (m : M A) (k : A -> M B) :
  adds P m -> (forall a, adds Q (k a)) ->
  (forall l1, P l1 -> R l1) ->
  (forall l1 l2, P l1 -> Q l2 -> R (l1 ++ l2)%list) ->
  adds R (mbind m k).
Proof.
  intros Hm Hk Hfail Hseq log. unfold mbind.
  destruct (Hm log) as (l1 & E1 & H1).
  destruct (m log) as [[a|e] log']; cbn [snd] in E1; subst log'.
  - destruct (Hk a (log ++ l1)%list) as (l2 & E2 & H2).
    exists (l1 ++ l2)%list. rewrite E2, app_assoc. auto.
  - exists l1. auto.
Qed.

Lemma mbind_ok {A B : Type} (m : M A) (k : A -> M B) log b log' :
  mbind m k log = (Ok b, log') ->
  exists a log1, m log = (Ok a, log1) /\ k a log1 = (Ok b, log').
Proof.
  unfold mbind. destruct (m log) as [[a|e] log1]; [eauto | discriminate].
Qed.

Lemma in_ranks_nil lo hi : in_ranks lo hi [].
Proof. split; constructor. Qed.

Lemma in_ranks_one lo hi s :
  (lo <= stage_rank s < hi)%nat -> in_ranks lo hi [s].
Proof.
  intros H. split.
  - cbn. constructor; constructor.
  - constructor; [exact H | constructor].
Qed.

Lemma in_ranks_weaken lo mid hi l :
  (mid <= hi)%nat -> in_ranks lo mid l -> in_ranks lo hi l.
Proof.
  intros Hle [Hs Hf]. split; [exact Hs|].
  eapply Forall_impl; [|exact Hf]. cbn. intros s ?. lia.
Qed.

Lemma in_ranks_app lo mid hi l1 l2 :
  in_ranks lo mid l1 -> in_ranks mid hi l2 -> (lo <= mid <= hi)%nat ->
  in_ranks lo hi (l1 ++ l2).
Proof.
  intros [Hs1 Hf1] [Hs2 Hf2] Hle. split.
  - rewrite map_app. induction l1 as [|s l1 IH]; [exact Hs2|].
    cbn in *. inversion Hs1 as [|? ? Hs1' Hall]; subst.
    inversion Hf1 as [|? ? Hs Hf1']; subst.
    constructor; [now apply IH|].
    apply Forall_app. split; [exact Hall|].
    apply Forall_map. eapply Forall_impl; [|exact Hf2]. cbn. intros t ?. lia.
  - apply Forall_app. split.
    + eapply Forall_impl; [|exact Hf1]. cbn. intros s ?. lia.
    + eapply Forall_impl; [|exact Hf2]. cbn. intros s ?. lia.
Qed.

Section RequestProperties.

Context {env : Env}.

Lemma find_image_file_delimiter (identifier : string) :
  contains ".." identifier = true \/ contains "/" identifier = true
  \/ contains "\" identifier = true ->
  find_image_file identifier = Ok None.
Proof.
  unfold find_image_file. cbn [existsb path_delimiters].
  intros [H|[H|H]]; rewrite H; cbn [orb]; rewrite ?orb_true_r; reflexivity.
Qed.

(** X15. A request whose identifier holds [..], [/] or [\] is answered
    "Image not found" (404) before anything is decoded: no stage runs,
    whatever the file system holds and whatever the other five request
    parameters are; [get_info] answers the same. *)
Theorem get_image_rejects_traversal (req : request) (BASE_URL : string) :
  contains ".." (identifier req) = true \/ contains "/" (identifier req) = true
  \/ contains "\" (identifier req) = true ->
  get_image req = (JSONResponse "BadRequest" "Image not found" 404, [])
  /\ get_info BASE_URL (identifier req)
     = InfoError "BadRequest" "Image not found" 404.
Proof.
  intros H. unfold get_image, get_info.
  now rewrite (find_image_file_delimiter _ H).
Qed.

Lemma adds_crop_stage (image : ndarray) (req : request) :
  adds (in_ranks 0 1) (crop_stage image req).
Proof.
  unfold crop_stage. destruct (shape2 image) as [oh ow].
  eapply adds_mbind with (P := in_ranks 0 0) (Q := in_ranks 0 1).
  - apply adds_lift, in_ranks_nil.
  - intros [[[x y] w] h].
    destruct ((w >? 0) && (h >? 0)).
    + eapply adds_mbind with (P := in_ranks 0 1) (Q := in_ranks 1 1).
      * apply adds_tell, in_ranks_one. cbn. lia.
      * intros _. apply adds_ret, in_ranks_nil.
      * auto.
      * intros. eapply in_ranks_app; [eassumption | eassumption | lia].
    + apply adds_ret, in_ranks_nil.
  - intros. eapply in_ranks_weaken; [|eassumption]. lia.
  - intros. eapply in_ranks_app; [eassumption | eassumption | lia].
Qed.

Lemma adds_scale_stage (image : ndarray) (req : request) :
  adds (in_ranks 1 2) (scale_stage image req).
Proof.
  unfold scale_stage. destruct (shape2 image) as [ch cw].
  eapply adds_mbind with (P := in_ranks 1 1) (Q := in_ranks 1 2).
  - apply adds_lift, in_ranks_nil.
  - intros [nw nh].
    destruct (negb (nw =? cw) || negb (nh =? ch)).
    + eapply adds_mbind with (P := in_ranks 1 2) (Q := in_ranks 2 2).
      * apply adds_tell, in_ranks_one. cbn. lia.
      * intros _. apply adds_lift, in_ranks_nil.
      * auto.
      * intros. eapply in_ranks_app; [eassumption | eassumption | lia].
    + apply adds_ret, in_ranks_nil.
  - intros. eapply in_ranks_weaken; [|eassumption]. lia.
  - intros. eapply in_ranks_app; [eassumption | eassumption | lia].
Qed.

Lemma adds_rotate_stage (image : ndarray) (req : request) :
  adds (in_ranks 2 3) (rotate_stage image req).
Proof.
  unfold rotate_stage.
  eapply adds_mbind with (P := in_ranks 2 3) (Q := in_ranks 3 3).
  - apply adds_tell, in_ranks_one. cbn. lia.
  - intros _. apply adds_lift, in_ranks_nil.
  - auto.
  - intros. eapply in_ranks_app; [eassumption | eassumption | lia].
Qed.

Lemma adds_encode_stage (image : ndarray) (req : request) :
  adds (in_ranks 3 4) (encode_stage image req).
Proof.
  unfold encode_stage.
  eapply adds_mbind with (P := in_ranks 3 4) (Q := in_ranks 4 4).
  - apply adds_tell, in_ranks_one. cbn. lia.
  - intros _. apply adds_lift, in_ranks_nil.
  - auto.
  - intros. eapply in_ranks_app; [eassumption | eassumption | lia].
Qed.

Lemma adds_render (image : ndarray) (req : request) :
  adds (in_ranks 0 4) (render image req).
Proof.
  unfold render.
  eapply adds_mbind with (P := in_ranks 0 1) (Q := in_ranks 1 4);
    [apply adds_crop_stage | | intros; eapply in_ranks_weaken; [|eassumption]; lia
    | intros; eapply in_ranks_app; [eassumption | eassumption | lia]].
  intros a.
  eapply adds_mbind with (P := in_ranks 1 2) (Q := in_ranks 2 4);
    [apply adds_scale_stage | | intros; eapply in_ranks_weaken; [|eassumption]; lia
    | intros; eapply in_ranks_app; [eassumption | eassumption | lia]].
  intros b.
  eapply adds_mbind with (P := in_ranks 2 3) (Q := in_ranks 3 4);
    [apply adds_rotate_stage | | intros; eapply in_ranks_weaken; [|eassumption]; lia
    | intros; eapply in_ranks_app; [eassumption | eassumption | lia]].
  intros c. apply adds_encode_stage.
Qed.

Lemma rotate_stage_ok (image : ndarray) (req : request) log rotated log' :
  rotate_stage image req log = (Ok rotated, log') ->
  log' = (log ++ [Rotate (rotation req)])%list.
Proof.
  unfold rotate_stage, mbind, tell, lift.
  destruct (apply_rotation image (rotation req)); now intros [= _ <-].
Qed.

Lemma encode_stage_ok (image : ndarray) (req : request) log body log' :
  encode_stage image req log = (Ok body, log') ->
  log' = (log ++ [Encode (format req) (quality req)])%list.
Proof.
  unfold encode_stage, mbind, tell, lift.
  destruct (encode_image image (format req) (quality req));
    now intros [= _ <-].
Qed.

Lemma get_image_log (req : request) :
  snd (get_image req) = []
  \/ exists image, snd (get_image req) = snd (render image req []).
Proof.
  unfold get_image.
  destruct (find_image_file (identifier req)) as [[p|]|x];
    [|now left|now left].
  destruct (cv2_imread p) as [image|]; [|now left].
  right. exists image. now destruct (render image req []) as [[b|e] log].
Qed.

(** X16. The stages of a request run in the order crop, resize, rotate,
    encode, each at most once, on every request and with every
    collaborator; and an image is only answered after the rotation and the
    encoding, which end the log. *)
Theorem get_image_stage_order (req : request) :
  StronglySorted lt (map stage_rank (snd (get_image req)))
  /\ forall body media_type,
       fst (get_image req) = ImageResponse body media_type ->
       exists before,
         snd (get_image req)
         = (before ++ [Rotate (rotation req);
                       Encode (format req) (quality req)])%list.
Proof.
  split.
  - destruct (get_image_log req) as [->|[image ->]]; [constructor|].
    destruct (adds_render image req []) as (l & -> & Hs & _). exact Hs.
  - intros body mt. unfold get_image.
    destruct (find_image_file (identifier req)) as [[p|]|x];
      [|discriminate|discriminate].
    destruct (cv2_imread p) as [image|]; [|discriminate].
    destruct (render image req []) as [[b|e] log] eqn:E; [|discriminate].
    intros _. cbn [snd]. unfold render in E.
    apply mbind_ok in E. destruct E as (i1 & log1 & _ & E).
    apply mbind_ok in E. destruct E as (i2 & log2 & _ & E).
    apply mbind_ok in E. destruct E as (i3 & log3 & E3 & E4).
    apply rotate_stage_ok in E3. apply encode_stage_ok in E4. subst.
    exists log2. now rewrite <- app_assoc.
Qed.

End RequestProperties.

Lemma get_image_rejects_traversal_witness :
  get_image (env := sample_env)
    {| identifier := "../page1"; region := "full"; size := "max";
       rotation := "0"; quality := "default"; format := "jpg" |}
  = (JSONResponse "BadRequest" "Image not found" 404, []).
Proof.
  apply (proj1 (get_image_rejects_traversal (env := sample_env)
                  {| identifier := "../page1"; region := "full";
                     size := "max"; rotation := "0"; quality := "default";
                     format := "jpg" |}
                  "http://localhost:8000" (or_introl eq_refl))).
Defined.


Lemma in_ranks_not lo hi l r :
  in_ranks lo hi l -> (r < lo \/ hi <= r)%nat ->
  Forall (fun s => stage_rank s <> r) l.
Proof.
  intros [_ Hf] Hr. eapply Forall_impl; [|exact Hf]. cbn. intros s ?. lia.
Qed.

Section ScaleProperties.

Context {env : Env}.

Lemma scale_stage_max_id (n : nat) (req : request) image log :
  size req = carets n "max" ->
  scale_stage image req log = (Ok image, log).
Proof.
  intros Hs. unfold scale_stage, shape2, mbind, lift, ret.
  rewrite Hs, parse_size_carets_eq, parse_size_max, !Z.eqb_refl.
  reflexivity.
Qed.

(** X17. The size [max], with any number of [^] in front, never resizes:
    no request with that size calls [cv2.resize], whatever its region, its
    rotation and its source. *)
Theorem scale_stage_max (n : nat) (req : request) :
  size req = carets n "max" ->
  forall w h, ~ In (Resize w h) (snd (get_image req)).
Proof.
  intros Hs.
  intros w h Hin.
  assert (Forall (fun s => stage_rank s <> 1%nat) (snd (get_image req))) as HF.
  { destruct (get_image_log req) as [->|[image ->]]; [constructor|].
    assert (adds (Forall (fun s => stage_rank s <> 1%nat)) (render image req))
      as Hr.
    { unfold render.
      eapply adds_mbind with (P := in_ranks 0 1) (Q := in_ranks 2 4).
      - apply adds_crop_stage.
      - intros a. eapply adds_mbind with (P := in_ranks 2 2)
                                         (Q := in_ranks 2 4).
        + intros log. exists []. rewrite (scale_stage_max_id n _ _ _ Hs).
          cbn [snd]. rewrite app_nil_r. split; [reflexivity|].
          apply in_ranks_nil.
        + intros b. eapply adds_mbind with (P := in_ranks 2 3)
                                           (Q := in_ranks 3 4).
          * apply adds_rotate_stage.
          * intros c. apply adds_encode_stage.
          * intros. eapply in_ranks_weaken; [|eassumption]. lia.
          * intros. eapply in_ranks_app; [eassumption | eassumption | lia].
        + intros l1 H1. eapply in_ranks_weaken; [|exact H1]. lia.
        + intros l1 l2 H1 H2.
          eapply in_ranks_app; [eassumption | eassumption | lia].
      - intros l1 H1. eapply in_ranks_not; [exact H1 | lia].
      - intros l1 l2 H1 H2. apply Forall_app. split.
        + eapply in_ranks_not; [exact H1 | lia].
        + eapply in_ranks_not; [exact H2 | lia]. }
    destruct (Hr []) as (l & -> & Hl). exact Hl. }
  rewrite Forall_forall in HF. now apply (HF _ Hin).
Qed.

(** X18. The identity request: region [full], size [max] and rotation [0]
    on a source with positive extents hand to the encoder a raster with the
    extents and the pixels of the decoded source; the log is crop, rotate,
    encode, and the answer is what the encoder returns. *)
Theorem get_image_identity (req : request) (image : ndarray) (p : Path) :
  find_image_file (identifier req) = Ok (Some p) ->
  cv2_imread p = Some image ->
  0 < shape_w image -> 0 < shape_h image ->
  region req = "full" -> size req = "max" -> rotation req = "0" ->
  exists raster,
    shape2 raster = shape2 image
    /\ (forall i j, at_ raster i j = at_ image i j)
    /\ get_image req
       = (match encode_image raster (format req) (quality req) with
          | Ok image_bytes =>
              ImageResponse image_bytes
                (dict_get content_type_map (lower (format req)) "image/jpeg")
          | Raise e => ProcessingError e
          end,
          [Crop 0 (shape_h image) 0 (shape_w image); Rotate "0";
           Encode (format req) (quality req)]).
Proof.
  intros Hf Hi HW HH Hr Hs Hrot.
  exists (crop image 0 (shape_h image) 0 (shape_w image)).
  split; [now apply crop_full_shape|]. split.
  - intros i j. unfold crop, adjust_index. cbn [at_].
    change (0 <? 0) with false. cbv iota.
    rewrite !Z.min_l by lia. reflexivity.
  - unfold get_image. rewrite Hf, Hi. unfold render.
    unfold mbind at 1. rewrite (crop_stage_full _ _ _ Hr HW HH).
    unfold mbind at 1. rewrite (scale_stage_max_id 0 _ _ _ Hs).
    unfold rotate_stage, encode_stage, mbind, tell, lift.
    rewrite Hrot. cbn [app].
    change (apply_rotation (crop image 0 (shape_h image) 0 (shape_w image)) "0")
      with (Ok (crop image 0 (shape_h image) 0 (shape_w image))).
    cbv iota beta.
    now destruct (encode_image _ _ _).
Qed.

End ScaleProperties.

Lemma scale_stage_max_witness :
  fst (get_image (env := sample_env) (sample_request "full" "^^max" "90"))
  = ImageResponse [2; 4] "image/jpeg"
  /\ ~ In (Resize 4 2)
        (snd (get_image (env := sample_env)
                (sample_request "full" "^^max" "90"))).
Proof.
  split; [vm_compute; reflexivity|].
  apply (scale_stage_max (env := sample_env) 2
           (sample_request "full" "^^max" "90")).
  reflexivity.
Defined.

Lemma get_image_identity_witness :
  exists raster,
    shape2 raster = shape2 sample_image
    /\ (forall i j, at_ raster i j = at_ sample_image i j)
    /\ get_image (env := sample_env) (sample_request "full" "max" "0")
       = (match encode_image (Env := sample_env) raster "jpg" "default" with
          | Ok image_bytes =>
              ImageResponse image_bytes
                (dict_get content_type_map (lower "jpg") "image/jpeg")
          | Raise e => ProcessingError e
          end,
          [Crop 0 2 0 4; Rotate "0"; Encode "jpg" "default"]).
Proof.
  apply (get_image_identity (env := sample_env)
           (sample_request "full" "max" "0") sample_image
           (PathJoin "/testimages/" "page1.jpg")); reflexivity.
Defined.


(** ** Rotation *)

Lemma float_mod_int_ok (x : float) (n : Z) :
  n = 90 \/ n = 360 -> exists r, float_mod_int x n = Ok r.
Proof.
  intros [-> | ->]; unfold float_mod_int.
  - change (float_of_int 90) with (Ok (S754_finite false 6333186975989760 (-46))).
    cbn [bind]. unfold float_mod. cbn [is_zero].
    destruct (is_zero _); [eauto|]. destruct (negb _); eauto.
  - change (float_of_int 360) with (Ok (S754_finite false 6333186975989760 (-44))).
    cbn [bind]. unfold float_mod. cbn [is_zero].
    destruct (is_zero _); [eauto|]. destruct (negb _); eauto.
Qed.

Section RotationProperties.

Context {env : Env}.

Lemma rotate_by_raise (image : ndarray) (tok : string) (e : exn) :
  rotate_by image tok = Raise e ->
  e = ValueError \/ exists angle, rotate_arbitrary image angle = Raise e.
Proof.
  unfold rotate_by.
  destruct (py_float tok) as [angle|e'] eqn:Ef.
  - cbn [bind]. destruct (negb (float_eq_int angle 0)); [|discriminate].
    destruct (float_mod_int_ok angle 90 (or_introl eq_refl)) as [r ->].
    cbn [bind]. destruct (float_eq_int r 0).
    + destruct (float_mod_int_ok angle 360 (or_intror eq_refl)) as [r' ->].
      cbn [bind].
      destruct (float_eq_int r' 90); [discriminate|].
      destruct (float_eq_int r' 180); [discriminate|].
      destruct (float_eq_int r' 270); discriminate.
    + intros H. right. eauto.
  - cbn [bind]. intros [= <-]. left.
    unfold py_float in Ef.
    destruct (drop_underscores _ _); [|now injection Ef].
    destruct (split_sign s) as [neg body].
    destruct (parse_decimal body) as [[d x]|]; [discriminate|].
    destruct (_ || _); [discriminate|].
    destruct (_ =? _)%string; [discriminate | now injection Ef].
Qed.

(** X19. [apply_rotation] never raises on account of the token: an error
    that comes out of it is never a [ValueError] and is one that the
    arbitrary-angle rotation raised, on the raster or on its mirror image;
    tokens that are not numbers and multiples of 90 cannot fail. *)
Theorem apply_rotation_errors (image : ndarray) (tok : string) (e : exn) :
  apply_rotation image tok = Raise e ->
  e <> ValueError
  /\ exists raster angle,
      rotate_arbitrary raster angle = Raise e
      /\ (raster = image \/ raster = cv2_flip_horizontal image).
Proof.
  unfold apply_rotation.
  destruct (tok =? "0")%string; [discriminate|].
  destruct (startswith "!" tok).
  - destruct (rotate_by (cv2_flip_horizontal image) (slice_from 1 tok))
      as [r|e'] eqn:E; [discriminate|].
    destruct (rotate_by_raise _ _ _ E) as [->|[angle Ha]]; [discriminate|].
    destruct e'; try discriminate; intros [= <-];
      (split; [discriminate | eauto]).
  - destruct (rotate_by image tok) as [r|e'] eqn:E; [discriminate|].
    destruct (rotate_by_raise _ _ _ E) as [->|[angle Ha]]; [discriminate|].
    destruct e'; try discriminate; intros [= <-];
      (split; [discriminate | eauto]).
Qed.

(** X20. A rotation token that is not a number, or that is a zero in any
    spelling, turns nothing: the raster comes back as it is, and, on a
    raster with positive extents, mirrored when the token has [!] in
    front. *)
Theorem apply_rotation_no_turn (image : ndarray) (tok : string) :
  py_float tok = Raise ValueError
  \/ (exists s, py_float tok = Ok (S754_zero s)) ->
  startswith "!" tok = false ->
  apply_rotation image tok = Ok image
  /\ (0 < shape_h image -> 0 < shape_w image ->
      apply_rotation image (String "!" tok)
      = Ok (cv2_flip_horizontal image)).
Proof.
  intros Hf Hb.
  assert (forall raster, match rotate_by raster tok with
                         | Raise ValueError => Ok raster
                         | r => r
                         end = Ok raster) as Hr.
  { intros raster. unfold rotate_by.
    destruct Hf as [-> | [s ->]]; [reflexivity|].
    cbn [bind]. now destruct s. }
  unfold apply_rotation.
  change (startswith "!" (String "!" tok)) with true.
  change (slice_from 1 (String "!" tok)) with tok.
  change (String "!" tok =? "0")%string with false.
  rewrite Hb. cbv iota.
  split; [|intros _ _; apply Hr].
  destruct (tok =? "0")%string; [reflexivity | apply Hr].
Qed.

(** X21. Quarter turns compose as turns do. On every raster with positive
    extents, [90] followed by [270], [270] followed by [90], [180] twice and
    [!0] twice give back the extents and every pixel of the raster, and the
    raster in between has positive extents too. On every raster, [-90] is
    [270], [450] is [90], and [360] turns nothing. *)
Theorem apply_rotation_compose (image : ndarray) :
  (0 < shape_h image -> 0 < shape_w image ->
   (exists a b, apply_rotation image "90" = Ok a
                /\ 0 < shape_h a /\ 0 < shape_w a
                /\ apply_rotation a "270" = Ok b /\ same_raster b image)
   /\ (exists a b, apply_rotation image "270" = Ok a
                   /\ 0 < shape_h a /\ 0 < shape_w a
                   /\ apply_rotation a "90" = Ok b /\ same_raster b image)
   /\ (exists a b, apply_rotation image "180" = Ok a
                   /\ 0 < shape_h a /\ 0 < shape_w a
                   /\ apply_rotation a "180" = Ok b /\ same_raster b image)
   /\ (exists a b, apply_rotation image "!0" = Ok a
                   /\ 0 < shape_h a /\ 0 < shape_w a
                   /\ apply_rotation a "!0" = Ok b /\ same_raster b image))
  /\ apply_rotation image "-90" = apply_rotation image "270"
  /\ apply_rotation image "450" = apply_rotation image "90"
  /\ apply_rotation image "360" = Ok image.
Proof.
  split; [intros HH HW; split; [|split; [|split]]|split; [|split]].
  - exists (cv2_rotate image ROTATE_90_CLOCKWISE),
      (cv2_rotate (cv2_rotate image ROTATE_90_CLOCKWISE)
         ROTATE_90_COUNTERCLOCKWISE).
    split; [vm_compute; reflexivity|]. split; [exact HW || exact HH|].
    split; [exact HH || exact HW|]. split; [vm_compute; reflexivity|].
    split; [reflexivity | intros i j; cbn; f_equal; lia].
  - exists (cv2_rotate image ROTATE_90_COUNTERCLOCKWISE),
      (cv2_rotate (cv2_rotate image ROTATE_90_COUNTERCLOCKWISE)
         ROTATE_90_CLOCKWISE).
    split; [vm_compute; reflexivity|]. split; [exact HW || exact HH|].
    split; [exact HH || exact HW|]. split; [vm_compute; reflexivity|].
    split; [reflexivity | intros i j; cbn; f_equal; lia].
  - exists (cv2_rotate image ROTATE_180),
      (cv2_rotate (cv2_rotate image ROTATE_180) ROTATE_180).
    split; [vm_compute; reflexivity|]. split; [exact HW || exact HH|].
    split; [exact HH || exact HW|]. split; [vm_compute; reflexivity|].
    split; [reflexivity | intros i j; cbn; f_equal; lia].
  - exists (cv2_flip_horizontal image),
      (cv2_flip_horizontal (cv2_flip_horizontal image)).
    split; [vm_compute; reflexivity|]. split; [exact HW || exact HH|].
    split; [exact HH || exact HW|]. split; [vm_compute; reflexivity|].
    split; [reflexivity | intros i j; cbn; f_equal; lia].
  - vm_compute. reflexivity.
  - vm_compute. reflexivity.
  - vm_compute. reflexivity.
Qed.

End RotationProperties.

Lemma apply_rotation_errors_witness :
  cv2_error <> ValueError
  /\ exists raster angle,
      rotate_arbitrary (Env := sample_env) raster angle = Raise cv2_error
      /\ (raster = sample_image \/ raster = cv2_flip_horizontal sample_image).
Proof.
  apply (apply_rotation_errors (env := sample_env) sample_image "45").
  vm_compute. reflexivity.
Defined.

Lemma apply_rotation_compose_witness :
  exists a b,
    apply_rotation (env := sample_env) sample_image "90" = Ok a
    /\ shape2 a = (4, 2)
    /\ apply_rotation (env := sample_env) a "270" = Ok b
    /\ same_raster b sample_image.
Proof.
  destruct (apply_rotation_compose (env := sample_env) sample_image)
    as (H & _).
  destruct H as ((a & b & Ha & _ & _ & Hb & Hs) & _);
    [reflexivity | reflexivity |].
  exists a, b. split; [exact Ha|]. split; [|split; [exact Hb | exact Hs]].
  vm_compute in Ha. injection Ha as <-. reflexivity.
Defined.

Lemma apply_rotation_no_turn_witness :
  apply_rotation (env := sample_env) sample_image "-0.0" = Ok sample_image
  /\ apply_rotation (env := sample_env) sample_image "!-0.0"
     = Ok (cv2_flip_horizontal sample_image).
Proof.
  destruct (apply_rotation_no_turn (env := sample_env) sample_image "-0.0")
    as [H1 H2];
    [right; exists true; vm_compute; reflexivity | reflexivity |].
  split; [exact H1 | apply H2; reflexivity].
Defined.


(** ** Encoding *)

Lemma str_lower_char_idem c :
  str_lower_char (str_lower_char c) = str_lower_char c.
Proof. destruct c as [[] [] [] [] [] [] [] []]; reflexivity. Qed.

Lemma str_lower_idem s : str_lower (str_lower s) = str_lower s.
Proof.
  induction s as [|c s IH]; [reflexivity|].
  cbn [str_lower]. now rewrite str_lower_char_idem, IH.
Qed.

Lemma lower_char_cases c :
  lower_char c = str_lower_char c
  \/ (128 <=? code (lower_char c)) && (128 <=? code (str_lower_char c)) = true.
Proof.
  destruct c as [[] [] [] [] [] [] [] []];
    first [left; reflexivity | right; reflexivity].
Qed.

Lemma eqb_high_ascii c a :
  (128 <=? code c) = true -> (code a <? 128) = true -> Ascii.eqb c a = false.
Proof.
  intros Hc Ha. destruct (Ascii.eqb_spec c a) as [->|]; [|reflexivity].
  apply Z.leb_le in Hc. apply Z.ltb_lt in Ha. lia.
Qed.

(** On a key of ASCII characters, the two lowerings compare alike. *)
Lemma lower_key_eqb f : forall k,
  all_chars (fun c => code c <? 128) k = true ->
  (lower f =? k)%string = (str_lower f =? k)%string.
Proof.
  induction f as [|c f IH]; intros [|a k] Hk; try reflexivity.
  cbn [all_chars] in Hk. apply andb_true_iff in Hk. destruct Hk as [Ha Hk].
  cbn [lower str_lower String.eqb]. rewrite (IH k Hk).
  destruct (lower_char_cases c) as [->|H]; [reflexivity|].
  apply andb_true_iff in H. destruct H as [H1 H2].
  now rewrite (eqb_high_ascii _ _ H1 Ha), (eqb_high_ascii _ _ H2 Ha).
Qed.

Section EncoderProperties.

Context {codec : Codec}.

(** X22. The format is read without regard to case, [jpeg] is [jpg] and
    [tif] is [tiff], and a format that is none of [jpg], [jpeg], [png],
    [webp], [tif], [tiff] is not refused: it is encoded exactly as [jpg]
    is. *)
Theorem encode_image_format (image : ndarray) (quality : string) :
  (forall format,
      IIIFImageServer.encode_image image format quality
      = IIIFImageServer.encode_image image (str_lower format) quality)
  /\ IIIFImageServer.encode_image image "jpeg" quality
     = IIIFImageServer.encode_image image "jpg" quality
  /\ IIIFImageServer.encode_image image "tif" quality
     = IIIFImageServer.encode_image image "tiff" quality
  /\ (forall format,
         ~ In (str_lower format) ["jpg"; "jpeg"; "png"; "webp"; "tif"; "tiff"] ->
         IIIFImageServer.encode_image image format quality
         = IIIFImageServer.encode_image image "jpg" quality).
Proof.
  split; [|split; [|split]].
  - intros format. unfold IIIFImageServer.encode_image.
    now rewrite str_lower_idem.
  - reflexivity.
  - reflexivity.
  - intros format Hn. unfold IIIFImageServer.encode_image.
    destruct (IIIFImageServer.convert_quality image quality) as [raster|];
      [|reflexivity].
    cbn [bind]. unfold IIIFImageServer.encode_as at 1.
    repeat match goal with
           | |- context [(str_lower format =? ?k)%string] =>
               destruct (String.eqb_spec (str_lower format) k) as [E|_];
               [exfalso; apply Hn; rewrite E; cbn; tauto|]
           end.
    reflexivity.
Qed.

(** X23. Only [gray] and [bitonal] change the raster: every other quality
    token, known or not, is encoded as [default] is, and so is [gray] on a
    raster that does not have three axes. *)
Theorem encode_image_quality (image : ndarray) (format : string) :
  (forall quality,
      quality <> "gray" -> quality <> "bitonal" ->
      IIIFImageServer.encode_image image format quality
      = IIIFImageServer.encode_image image format "default")
  /\ (ndim image <> 3 ->
      IIIFImageServer.encode_image image format "gray"
      = IIIFImageServer.encode_image image format "default").
Proof.
  split.
  - intros quality Hg Hb. unfold IIIFImageServer.encode_image.
    assert (IIIFImageServer.convert_quality image quality = Ok image) as ->.
    { unfold IIIFImageServer.convert_quality.
      destruct (_ || _); [reflexivity|].
      destruct (String.eqb_spec quality "gray"); [contradiction|].
      destruct (String.eqb_spec quality "bitonal"); [contradiction|].
      reflexivity. }
    reflexivity.
  - intros Hn. unfold IIIFImageServer.encode_image.
    unfold IIIFImageServer.convert_quality.
    change ("gray" =? "color")%string with false.
    change ("gray" =? "default")%string with false.
    change ("gray" =? "gray")%string with true.
    change ("default" =? "color")%string with false.
    change ("default" =? "default")%string with true.
    cbn [orb]. apply Z.eqb_neq in Hn. now rewrite Hn.
Qed.

Lemma encode_image_container (image : ndarray) (format quality : string)
  (body : list Z) :
  IIIFImageServer.encode_image image format quality = Ok body ->
  exists raster ext params,
    cv2_imencode ext raster params = Ok (true, body)
    /\ In (dict_get content_type_map (lower format) "image/jpeg", ext)
          media_type_ext.
Proof.
  unfold IIIFImageServer.encode_image.
  destruct (IIIFImageServer.convert_quality image quality) as [raster|];
    [|discriminate].
  cbn [bind].
  destruct (IIIFImageServer.encode_as raster (str_lower format))
    as [[success buffer]|] eqn:E; [|discriminate].
  cbn [bind]. destruct success; [|discriminate]. cbn [negb]. intros [= <-].
  exists raster. revert E. unfold IIIFImageServer.encode_as.
  unfold dict_get, content_type_map.
  rewrite !(String.eqb_sym _ (lower format)).
  rewrite !lower_key_eqb by reflexivity.
  destruct (str_lower format =? "jpg")%string;
    [intros E; do 2 eexists; split; [exact E | cbn; tauto]|].
  destruct (str_lower format =? "jpeg")%string;
    [intros E; do 2 eexists; split; [exact E | cbn; tauto]|].
  destruct (str_lower format =? "png")%string;
    [intros E; do 2 eexists; split; [exact E | cbn; tauto]|].
  destruct (str_lower format =? "webp")%string;
    [intros E; do 2 eexists; split; [exact E | cbn; tauto]|].
  destruct (str_lower format =? "tif")%string;
    [intros E; do 2 eexists; split; [exact E | cbn; tauto]|].
  destruct (str_lower format =? "tiff")%string;
    intros E; do 2 eexists; (split; [exact E | cbn; tauto]).
Qed.

(** X24. With [encode_image] as the encoder, the media type of an image
    answer always names the container of its body: the body is a buffer
    that [cv2.imencode] returned with success for [.jpg], [.png], [.webp] or
    [.tiff], and the media type is the one of that container, also for
    formats that fall back to JPEG. *)
Theorem get_image_media_type (env : Env) (req : request)
  (body : list Z) (media_type : string) :
  fst (get_image (env := with_codec env codec) req)
  = ImageResponse body media_type ->
  exists raster ext params,
    cv2_imencode ext raster params = Ok (true, body)
    /\ In (media_type, ext) media_type_ext.
Proof.
  unfold get_image.
  destruct (find_image_file (identifier req)) as [[p|]|x];
    [|discriminate|discriminate].
  destruct (cv2_imread p) as [image|]; [|discriminate].
  destruct (render image req []) as [[b|e] log] eqn:E; [|discriminate].
  cbn [fst]. intros [= <- <-].
  unfold render in E.
  apply mbind_ok in E. destruct E as (i1 & log1 & _ & E).
  apply mbind_ok in E. destruct E as (i2 & log2 & _ & E).
  apply mbind_ok in E. destruct E as (i3 & log3 & _ & E).
  unfold encode_stage in E. apply mbind_ok in E.
  destruct E as ([] & l4 & _ & E). unfold lift in E. injection E as E _.
  apply (encode_image_container i3 (format req) (quality req) b). exact E.
Qed.

End EncoderProperties.

Lemma encode_image_format_witness :
  IIIFImageServer.encode_image (codec := sample_codec) sample_image "BMP" "default"
  = IIIFImageServer.encode_image (codec := sample_codec) sample_image "jpg" "default".
Proof.
  destruct (encode_image_format (codec := sample_codec) sample_image
              "default") as (_ & _ & _ & H).
  apply H. cbn. intuition discriminate.
Defined.

Lemma encode_image_quality_witness :
  IIIFImageServer.encode_image (codec := sample_codec) sample_image "png" "sepia"
  = IIIFImageServer.encode_image (codec := sample_codec) sample_image "png" "default".
Proof.
  apply (proj1 (encode_image_quality (codec := sample_codec) sample_image
                  "png")); discriminate.
Defined.

Lemma get_image_media_type_witness :
  exists raster ext params,
    cv2_imencode (Codec := sample_codec) ext raster params
    = Ok (true, [4; 4; 2])
    /\ In ("image/jpeg", ext) media_type_ext.
Proof.
  apply (get_image_media_type (codec := sample_codec) sample_env
           {| identifier := "page1"; region := "full"; size := "max";
              rotation := "0"; quality := "gray"; format := "bmp" |}).
  vm_compute. reflexivity.
Defined.


(** ** The information document *)

Section InfoProperties.

Context {env : Env}.

(** X25. [get_info] and [get_image] agree on what is available: one answers
    "Image not found" (404) or "Invalid image file" (400) exactly when the
    other does for the same identifier. When the document is returned, its
    [width] and [height] are the extents of the decoded source, [maxWidth]
    and [maxHeight] repeat them, [maxArea] is their product, and [id] is the
    base address followed by [/iiif/3/] and the identifier. *)
Theorem get_info_agrees (BASE_URL : string) (req : request) :
  (get_info BASE_URL (identifier req)
   = InfoError "BadRequest" "Image not found" 404
   <-> get_image req = (JSONResponse "BadRequest" "Image not found" 404, []))
  /\ (get_info BASE_URL (identifier req)
      = InfoError "BadRequest" "Invalid image file" 400
      <-> get_image req
          = (JSONResponse "BadRequest" "Invalid image file" 400, []))
  /\ forall info,
      get_info BASE_URL (identifier req) = InfoResponse info ->
      exists p image,
        find_image_file (identifier req) = Ok (Some p)
        /\ cv2_imread p = Some image
        /\ json_get info "width" = Some (JNumber (shape_w image))
        /\ json_get info "height" = Some (JNumber (shape_h image))
        /\ json_get info "maxWidth" = Some (JNumber (shape_w image))
        /\ json_get info "maxHeight" = Some (JNumber (shape_h image))
        /\ json_get info "maxArea"
           = Some (JNumber (shape_w image * shape_h image))
        /\ json_get info "id"
           = Some (JString (BASE_URL ++ "/iiif/3/" ++ identifier req)).
Proof.
  unfold get_info, get_image.
  destruct (find_image_file (identifier req)) as [[p|]|x] eqn:Hf.
  - destruct (cv2_imread p) as [image|] eqn:Hi.
    + split; [|split].
      * split; [discriminate|].
        destruct (render image req []) as [[b|e] log]; discriminate.
      * split; [discriminate|].
        destruct (render image req []) as [[b|e] log]; discriminate.
      * unfold shape2. intros info [= <-]. exists p, image.
        split; [reflexivity|]. split; [exact Hi|]. repeat split.
    + split; [|split]; [split; discriminate | split; reflexivity
                       | discriminate].
  - split; [|split]; [split; reflexivity | split; discriminate
                     | discriminate].
  - split; [|split]; [split; discriminate | split; discriminate
                     | discriminate].
Qed.

End InfoProperties.

Lemma get_info_agrees_witness :
  exists p image,
    find_image_file (env := sample_env) "page1" = Ok (Some p)
    /\ cv2_imread (Env := sample_env) p = Some image
    /\ shape_w image = 4 /\ shape_h image = 2.
Proof.
  destruct (get_info_agrees (env := sample_env) "http://localhost:8000"
              (sample_request "full" "max" "0")) as (_ & _ & H).
  destruct (H _ eq_refl) as (p & image & Hf & Hi & Hw & Hh & _).
  exists p, image. repeat split; auto.
  - cbn in Hw. congruence.
  - cbn in Hh. congruence.
Defined.

(** ** The base address *)

Lemma endswith_char_cons ch c r :
  truthy r = true ->
  endswith (String ch "") (String c r) = endswith (String ch "") r.
Proof.
  destruct r as [|d r]; [discriminate|]. intros _. unfold endswith.
  cbn [String.length Nat.leb].
  replace (S (S (String.length r)) - 1)%nat with (S (String.length r)) by lia.
  replace (S (String.length r) - 1)%nat with (String.length r) by lia.
  reflexivity.
Qed.

Lemma endswith_char_one ch c :
  endswith (String ch "") (String c "") = Ascii.eqb c ch.
Proof.
  unfold endswith. cbn [String.length Nat.leb Nat.sub slice_from andb String.eqb].
  now destruct (Ascii.eqb c ch).
Qed.

Lemma endswith_char_append ch a b :
  truthy b = true ->
  endswith (String ch "") (a ++ b) = endswith (String ch "") b.
Proof.
  intros Hb. induction a as [|c a IH]; [reflexivity|].
  cbn [append]. rewrite endswith_char_cons; [exact IH|].
  destruct a; [exact Hb | reflexivity].
Qed.

Lemma endswith_char_none ch s :
  all_chars (fun c => negb (Ascii.eqb c ch)) s = true ->
  endswith (String ch "") s = false.
Proof.
  induction s as [|c s IH]; [reflexivity|].
  cbn [all_chars]. intros H. apply andb_true_iff in H. destruct H as [Hc Hs].
  destruct s as [|d s].
  - rewrite endswith_char_one. now apply negb_true_iff.
  - rewrite endswith_char_cons by reflexivity. now apply IH.
Qed.

Lemma rstrip_chars_end ch s :
  endswith (String ch "") (rstrip_chars (String ch "") s) = false.
Proof.
  induction s as [|c s IH]; [reflexivity|].
  cbn [rstrip_chars].
  destruct (rstrip_chars (String ch "") s) as [|d r] eqn:E.
  - cbn [truthy negb]. rewrite andb_true_r.
    cbn [contains startswith]. rewrite andb_true_r, orb_false_r.
    destruct (Ascii.eqb c ch) eqn:Ec; [reflexivity|].
    rewrite endswith_char_one, Ascii.eqb_sym. 
    rewrite Ascii.eqb_sym. exact Ec.
  - cbn [truthy negb]. rewrite andb_false_r.
    rewrite endswith_char_cons by reflexivity. exact IH.
Qed.

Lemma rstrip_chars_only ch s :
  exists t, s = rstrip_chars (String ch "") s ++ t
            /\ all_chars (Ascii.eqb ch) t = true.
Proof.
  induction s as [|c s (t & IH & Ht)]; [now exists ""|].
  cbn [rstrip_chars].
  destruct (rstrip_chars (String ch "") s) as [|d r] eqn:E.
  - cbn [truthy negb]. rewrite andb_true_r.
    cbn [contains startswith]. rewrite andb_true_r, orb_false_r.
    destruct (Ascii.eqb_spec c ch) as [->|Hne].
    + exists (String ch t). split.
      * cbn [append] in *. now rewrite <- IH.
      * cbn [all_chars]. now rewrite Ascii.eqb_refl.
    + exists t. split; [|exact Ht]. cbn [append] in *. now rewrite <- IH.
  - cbn [truthy negb]. rewrite andb_false_r. exists t. split; [|exact Ht].
    cbn [append] in *. now rewrite <- IH.
Qed.

Lemma uint_digits d :
  all_chars (fun c => negb (Ascii.eqb c "/")) (NilEmpty.string_of_uint d) = true.
Proof. induction d; cbn [NilEmpty.string_of_uint all_chars]; auto. Qed.

Lemma str_of_int_chars n :
  truthy (str_of_int n) = true
  /\ all_chars (fun c => negb (Ascii.eqb c "/")) (str_of_int n) = true.
Proof.
  unfold str_of_int. destruct (Z.to_int n) as [d|d];
    cbn [NilZero.string_of_int].
  - destruct d; (split; [reflexivity|]);
      try (unfold NilZero.string_of_uint; apply uint_digits); reflexivity.
  - split; [reflexivity|]. cbn [all_chars].
    destruct d; try (unfold NilZero.string_of_uint; apply uint_digits);
      reflexivity.
Qed.

(** X26. The base address that the command line exports never ends with a
    slash, whatever [--url] and [--port] are; when [--url] is given and not
    empty, the address is that option without its trailing slashes, and
    nothing else is removed. *)
Theorem base_url_no_trailing_slash (url : option string) (port : Z) :
  endswith "/" (cli.base_url url port) = false
  /\ forall u, url = Some u -> truthy u = true ->
       exists t, u = cli.base_url url port ++ t
                 /\ all_chars (Ascii.eqb "/") t = true.
Proof.
  assert (endswith "/" ("http://localhost:" ++ str_of_int port) = false) as D.
  { destruct (str_of_int_chars port) as [Ht Hc].
    rewrite endswith_char_append by exact Ht. now apply endswith_char_none. }
  split.
  - unfold cli.base_url. destruct url as [u|]; [|exact D].
    destruct (truthy u); [apply rstrip_chars_end | exact D].
  - intros u -> Hu. unfold cli.base_url. rewrite Hu.
    apply rstrip_chars_only.
Qed.

Lemma base_url_no_trailing_slash_witness :
  exists t, "https://iiif.example.org/images//"
            = cli.base_url (Some "https://iiif.example.org/images//") 8000 ++ t
            /\ all_chars (Ascii.eqb "/") t = true.
Proof.
  apply (proj2 (base_url_no_trailing_slash
                  (Some "https://iiif.example.org/images//") 8000));
    reflexivity.
Defined.
